(** * Repository, Unit of Work and Identity Map of [main.py]

    A shallow embedding of [src/main.py].

    - The domain entities ([UserEntity], [CarEntity]) are Python objects with
      identity: they live in a heap and are named by their address.
    - The persistence records ([UserModel], [CarModel]) are values read from
      and written to the tables of the database.
    - The SQLAlchemy session is the external collaborator of the program; its
      part is the section "The session" below.
    - Every method is a computation in a state-and-exception monad: a Python
      exception leaves the mutations made before it in place. *)

From stdpp Require Import gmap strings list.

(** ** Objects *)

(** Addresses of entity objects. A heap is the list of objects allocated so
    far; an object's address is its position. *)
Definition loc := nat.

(** The two dataclasses. [cars] holds references to car objects, [user] is
    [None] or a reference to a user object. *)
Inductive obj :=
| UserEntity (id name : string) (cars : list loc)
| CarEntity (id brand : string) (user : option loc).

(** ** Records of the persistence layer *)

(** Scalar columns of one related car, as reached through [UserModel.cars];
    the [user] of such a car is the record that holds the collection
    ([back_populates]). *)
Record CarFields := { cf_id : string; cf_brand : string }.

(** [UserModel]: columns [id], [name] and the [cars] relationship. *)
Record UserModel := {
  um_id : string;
  um_name : string;
  um_cars : list CarFields }.

(** [CarModel]: columns [id], [brand] and the [user] relationship
    ([None] when the car has no owner). *)
Record CarModel := {
  cm_id : string;
  cm_brand : string;
  cm_user : option UserModel }.

(** ** The database *)

(** Table [users]: rows (id, name). Table of [CarModel]: rows
    (id, (brand, user_id)). Rows are kept in insertion order. *)
Record DB := {
  users_t : list (string * string);
  cars_t : list (string * (string * option string)) }.

(** What [session.add] stages. *)
Inductive model :=
| MUser (u : UserModel)
| MCar (c : CarModel).

(** A session: the view of the database inside the current transaction, the
    records staged by [session.add] that are not flushed yet, and whether the
    transaction is inactive: rolled back by a failed flush and waiting for
    [rollback()]. *)
Record Session := {
  txn : DB;
  new : list model;
  inactive : bool }.

(** Calls the program makes on the session, in order. *)
Inductive event :=
| EvAdd (m : model)
| EvCommit
| EvRollback
| EvClose
| EvGetUser (k : string)
| EvGetCar (k : string)
| EvAllUsers
| EvAllCars.

(** ** Program state *)

Record State := {
  heap : list obj;
  engine : DB;                      (* committed contents behind [db_engine] *)
  session : Session;                (* [self.session], shared by both repositories *)
  identity_map : gmap string loc;   (* [self.users._identity_map] *)
  trace : list event }.

(** ** Exceptions and the monad *)

(** [AttributeError] is Python's error for an attribute read on [None] or on
    an object without that attribute. [IntegrityError] is what the session
    raises when an INSERT violates a primary key, [PendingRollbackError] what
    it raises when it is used while its transaction is inactive. The last
    three are the error kinds the specification names; the source defines
    none of them and has no [raise] of its own outside the abstract
    methods. *)
Inductive exn :=
| AttributeError
| IntegrityError
| PendingRollbackError
| DuplicateKeyError
| InvalidStateError
| StoreError.

Inductive outcome (A : Type) :=
| Ret (a : A)
| Raise (e : exn).
Arguments Ret {A} a.
Arguments Raise {A} e.

Definition M (A : Type) : Type := State → outcome A * State.

Definition ret {A} (a : A) : M A := λ s, (Ret a, s).
Definition raise {A} (e : exn) : M A := λ s, (Raise e, s).
Definition bind {A B} (m : M A) (k : A → M B) : M B :=
  λ s, match m s with
       | (Ret a, s') => k a s'
       | (Raise e, s') => (Raise e, s')
       end.

Notation "'let*' x ':=' m 'in' k" := (bind m (λ x, k))
  (at level 10, x pattern, m at level 100, k at level 200).
Notation "m ';;' k" := (bind m (λ _, k))
  (at level 100, k at level 200, right associativity).

(** A list comprehension [[f(x) for x in xs]]. *)
Fixpoint mapM {A B} (f : A → M B) (xs : list A) : M (list B) :=
  match xs with
  | [] => ret []
  | x :: xs' =>
      let* y := f x in
      let* ys := mapM f xs' in
      ret (y :: ys)
  end.

(** ** Heap access *)

Definition with_heap (h : list obj) (s : State) : State :=
  {| heap := h; engine := engine s; session := session s;
     identity_map := identity_map s; trace := trace s |}.

(** Constructing an object. *)
Definition alloc (o : obj) : M loc :=
  λ s, (Ret (length (heap s)), with_heap (heap s ++ [o]) s).

(** Attribute reads. *)
Definition get_id (l : loc) : M string :=
  λ s, match heap s !! l with
       | Some (UserEntity i _ _) | Some (CarEntity i _ _) => (Ret i, s)
       | None => (Raise AttributeError, s)
       end.

Definition get_name (l : loc) : M string :=
  λ s, match heap s !! l with
       | Some (UserEntity _ n _) => (Ret n, s)
       | _ => (Raise AttributeError, s)
       end.

Definition get_brand (l : loc) : M string :=
  λ s, match heap s !! l with
       | Some (CarEntity _ b _) => (Ret b, s)
       | _ => (Raise AttributeError, s)
       end.

Definition get_cars (l : loc) : M (list loc) :=
  λ s, match heap s !! l with
       | Some (UserEntity _ _ cs) => (Ret cs, s)
       | _ => (Raise AttributeError, s)
       end.

Definition get_user (l : loc) : M (option loc) :=
  λ s, match heap s !! l with
       | Some (CarEntity _ _ u) => (Ret u, s)
       | _ => (Raise AttributeError, s)
       end.

(** An attribute read through a reference that may be [None]. *)
Definition deref {A} (o : option A) : M A :=
  match o with
  | Some a => ret a
  | None => raise AttributeError
  end.

(** Attribute writes [car_entity.user = u] and [user_entity.cars = cs]. *)
Definition set_user (l : loc) (u : option loc) : M unit :=
  λ s, match heap s !! l with
       | Some (CarEntity i b _) => (Ret tt, with_heap (<[l := CarEntity i b u]> (heap s)) s)
       | _ => (Raise AttributeError, s)
       end.

Definition set_cars (l : loc) (cs : list loc) : M unit :=
  λ s, match heap s !! l with
       | Some (UserEntity i n _) => (Ret tt, with_heap (<[l := UserEntity i n cs]> (heap s)) s)
       | _ => (Raise AttributeError, s)
       end.

(** ** The mappers *)

(** [car_model_to_entity]. *)
Definition car_model_to_entity (car : CarModel) : M loc :=
  let* car_entity := alloc (CarEntity (cm_id car) (cm_brand car) None) in
  let* owner := deref (cm_user car) in
  let* user_entity := alloc (UserEntity (um_id owner) (um_name owner) [car_entity]) in
  set_user car_entity (Some user_entity);;
  ret car_entity.

(** [car_entity_to_model]. The [user] given to [CarModel] is a new
    [UserModel]; through [back_populates] the car joins its [cars]. *)
Definition car_entity_to_model (car : loc) : M CarModel :=
  let* i := get_id car in
  let* b := get_brand car in
  let* u := get_user car in
  let* owner := deref u in
  let* ui := get_id owner in
  let* un := get_name owner in
  ret {| cm_id := i; cm_brand := b;
         cm_user := Some {| um_id := ui; um_name := un;
                            um_cars := [ {| cf_id := i; cf_brand := b |} ] |} |}.

(** [user_model_to_entity]. *)
Definition user_model_to_entity (user : UserModel) : M loc :=
  let* user_entity := alloc (UserEntity (um_id user) (um_name user) []) in
  let* cars := mapM (λ car, alloc (CarEntity (cf_id car) (cf_brand car) (Some user_entity)))
                    (um_cars user) in
  set_cars user_entity cars;;
  ret user_entity.

(** [user_entity_to_model]. *)
Definition user_entity_to_model (user : loc) : M UserModel :=
  let* i := get_id user in
  let* n := get_name user in
  let* cs := get_cars user in
  let* cars := mapM (λ car, let* ci := get_id car in
                            let* cb := get_brand car in
                            ret {| cf_id := ci; cf_brand := cb |}) cs in
  ret {| um_id := i; um_name := n; um_cars := cars |}.

(** ** The session

    The part of SQLAlchemy's [Session] the program uses, over a database whose
    tables enforce their primary key. Identifiers are compared as strings.
    [session.add] stages a record together with the records related to it
    (the relationships cascade). A flush inserts what is staged, the user row
    before the rows of its cars; it happens at [commit] and before every query
    (autoflush). A flush that violates a primary key raises [IntegrityError]:
    the transaction is rolled back, what was staged is dropped and the
    transaction is left inactive. While it is inactive every [commit] and
    every query raises [PendingRollbackError]; [session.add] still stages.
    [rollback()] and [close()] end the transaction, and the session is usable
    again. *)

Fixpoint assoc {V} (k : string) (l : list (string * V)) : option V :=
  match l with
  | [] => None
  | (k', v) :: l' => if decide (k' = k) then Some v else assoc k l'
  end.

Definition insert_user (db : DB) (r : string * string) : option DB :=
  match assoc r.1 (users_t db) with
  | Some _ => None
  | None => Some {| users_t := users_t db ++ [r]; cars_t := cars_t db |}
  end.

Definition insert_car (db : DB) (r : string * (string * option string)) : option DB :=
  match assoc r.1 (cars_t db) with
  | Some _ => None
  | None => Some {| users_t := users_t db; cars_t := cars_t db ++ [r] |}
  end.

Fixpoint insert_cars (db : DB) (rs : list (string * (string * option string))) : option DB :=
  match rs with
  | [] => Some db
  | r :: rs' => match insert_car db r with
                | Some db' => insert_cars db' rs'
                | None => None
                end
  end.

(** The car rows of a user record: the foreign key is the owner's id. *)
Definition car_rows (u : UserModel) : list (string * (string * option string)) :=
  map (λ c, (cf_id c, (cf_brand c, Some (um_id u)))) (um_cars u).

Definition flush_user (db : DB) (u : UserModel) : option DB :=
  match insert_user db (um_id u, um_name u) with
  | Some db' => insert_cars db' (car_rows u)
  | None => None
  end.

(** A staged car brings its owner, and the owner's [cars] hold the car. *)
Definition flush_model (db : DB) (m : model) : option DB :=
  match m with
  | MUser u => flush_user db u
  | MCar c => match cm_user c with
              | Some u => flush_user db u
              | None => insert_car db (cm_id c, (cm_brand c, None))
              end
  end.

Fixpoint flush (db : DB) (ms : list model) : option DB :=
  match ms with
  | [] => Some db
  | m :: ms' => match flush_model db m with
                | Some db' => flush db' ms'
                | None => None
                end
  end.

(** Loading records. [user.cars] are the car rows whose foreign key is the
    user's id; [car.user] is the user row the foreign key names, if any. *)
Definition load_user (db : DB) (k name : string) : UserModel :=
  {| um_id := k; um_name := name;
     um_cars := omap (λ r, if decide (r.2.2 = Some k)
                           then Some {| cf_id := r.1; cf_brand := r.2.1 |}
                           else None) (cars_t db) |}.

Definition load_car (db : DB) (r : string * (string * option string)) : CarModel :=
  {| cm_id := r.1; cm_brand := r.2.1;
     cm_user := match r.2.2 with
                | Some uid => load_user db uid <$> assoc uid (users_t db)
                | None => None
                end |}.

Definition with_session (ss : Session) (s : State) : State :=
  {| heap := heap s; engine := engine s; session := ss;
     identity_map := identity_map s; trace := trace s |}.

Definition with_engine (db : DB) (s : State) : State :=
  {| heap := heap s; engine := db; session := session s;
     identity_map := identity_map s; trace := trace s |}.

Definition with_identity_map (im : gmap string loc) (s : State) : State :=
  {| heap := heap s; engine := engine s; session := session s;
     identity_map := im; trace := trace s |}.

Definition with_trace (t : list event) (s : State) : State :=
  {| heap := heap s; engine := engine s; session := session s;
     identity_map := identity_map s; trace := t |}.

Definition log (e : event) : M unit :=
  λ s, (Ret tt, with_trace (trace s ++ [e]) s).

(** A usable session with nothing staged whose view is the committed
    database. *)
Definition clean (s : State) : Session :=
  {| txn := engine s; new := []; inactive := false |}.

(** The session a failed flush leaves: rolled back, nothing staged, waiting
    for [rollback()]. *)
Definition failed (s : State) : Session :=
  {| txn := engine s; new := []; inactive := true |}.

Definition session_flush : M unit :=
  λ s, if inactive (session s)
       then (Raise PendingRollbackError, s)
       else match flush (txn (session s)) (new (session s)) with
            | Some db =>
                (Ret tt, with_session {| txn := db; new := []; inactive := false |} s)
            | None => (Raise IntegrityError, with_session (failed s) s)
            end.

Definition session_add (m : model) : M unit :=
  log (EvAdd m);;
  λ s, (Ret tt, with_session {| txn := txn (session s);
                                new := new (session s) ++ [m];
                                inactive := inactive (session s) |} s).

Definition session_commit : M unit :=
  log EvCommit;;
  session_flush;;
  λ s, (Ret tt, with_engine (txn (session s)) s).

Definition session_rollback : M unit :=
  log EvRollback;;
  λ s, (Ret tt, with_session (clean s) s).

Definition session_close : M unit :=
  log EvClose;;
  λ s, (Ret tt, with_session (clean s) s).

(** [session.query(UserModel).get(k)] *)
Definition query_get_user (k : string) : M (option UserModel) :=
  log (EvGetUser k);;
  session_flush;;
  λ s, (Ret (load_user (txn (session s)) k <$> assoc k (users_t (txn (session s)))), s).

(** [session.query(UserModel).all()] *)
Definition query_all_users : M (list UserModel) :=
  log EvAllUsers;;
  session_flush;;
  λ s, (Ret (map (λ r, load_user (txn (session s)) r.1 r.2) (users_t (txn (session s)))), s).

(** [session.query(CarModel).get(k)] *)
Definition query_get_car (k : string) : M (option CarModel) :=
  log (EvGetCar k);;
  session_flush;;
  λ s, (Ret ((λ v, load_car (txn (session s)) (k, v)) <$> assoc k (cars_t (txn (session s)))), s).

(** [session.query(CarModel).all()] *)
Definition query_all_cars : M (list CarModel) :=
  log EvAllCars;;
  session_flush;;
  λ s, (Ret (map (load_car (txn (session s))) (cars_t (txn (session s)))), s).

(** ** Repositories *)

Module CarRepository.

Definition add (car : loc) : M unit :=
  let* car_model := car_entity_to_model car in
  session_add (MCar car_model);;
  session_commit.

Definition get (id_ : string) : M (option loc) :=
  let* car_model := query_get_car id_ in
  match car_model with
  | Some c => let* e := car_model_to_entity c in ret (Some e)
  | None => ret None
  end.

Definition list : M (list loc) :=
  let* car_models := query_all_cars in
  mapM car_model_to_entity car_models.

End CarRepository.

Module UserRepository.

Definition add (user : loc) : M unit :=
  let* k := get_id user in
  (λ s, (Ret tt, with_identity_map (<[k := user]> (identity_map s)) s));;
  let* user_model := user_entity_to_model user in
  session_add (MUser user_model);;
  session_commit.

Definition _get_user {I} (instance : option I) (mapper_func : I → M loc) : M (option loc) :=
  match instance with
  | None => ret None
  | Some i =>
      let* entity := mapper_func i in
      let* k := get_id entity in
      λ s, match identity_map s !! k with
           | Some e => (Ret (Some e), s)
           | None => (Ret (Some entity), with_identity_map (<[k := entity]> (identity_map s)) s)
           end
  end.

Definition get (id_ : string) : M (option loc) :=
  let* user_model := query_get_user id_ in
  _get_user user_model user_model_to_entity.

Definition list : M (list loc) :=
  let* user_models := query_all_users in
  mapM user_model_to_entity user_models.

End UserRepository.

(** ** Unit of work *)

Module AbstractUnitOfWork.

(** [__exit__] calls [self.rollback()], the method of the concrete class. *)
Definition __exit__ (rollback : M unit) : M unit := rollback.

End AbstractUnitOfWork.

Module MainUnitOfWork.

(** A new session from the factory and two repositories bound to it; the
    user repository starts with an empty identity map. *)
Definition __enter__ : M unit :=
  λ s, (Ret tt, with_identity_map ∅ (with_session (clean s) s)).

Definition commit : M unit := session_commit.

Definition rollback : M unit := session_rollback.

Definition __exit__ : M unit :=
  AbstractUnitOfWork.__exit__ rollback;;
  session_close.

End MainUnitOfWork.

(** The statement [with main_uow: body]: [__exit__] runs when the body
    returns and when it raises; it returns [None], so an exception of the body
    is raised again after it. *)
Definition with_uow {A} (body : M A) : M A :=
  MainUnitOfWork.__enter__;;
  λ s, match body s with
       | (r, s') => match MainUnitOfWork.__exit__ s' with
                    | (Ret _, s'') => (r, s'')
                    | (Raise e, s'') => (Raise e, s'')
                    end
       end.

Definition run {A} (m : M A) (s : State) : outcome A := (m s).1.
Definition exec {A} (m : M A) (s : State) : State := (m s).2.

(** The state of [__main__] after [Base.metadata.create_all(engine)]. *)
Definition empty_db : DB := {| users_t := []; cars_t := [] |}.
Definition init : State :=
  {| heap := []; engine := empty_db;
     session := {| txn := empty_db; new := []; inactive := false |};
     identity_map := ∅; trace := [] |}.

(** * Properties *)

Arguments bind : simpl never.

(** ** Heap lemmas *)

Section heap_lemmas.

Implicit Types (s : State) (h : list obj) (l : loc).

Lemma with_heap_id s : with_heap (heap s) s = s.
Proof. by destruct s. Qed.

Lemma bind_Ret {A B} (m : M A) (k : A → M B) s a s' :
  m s = (Ret a, s') → bind m k s = k a s'.
Proof. unfold bind. by intros ->. Qed.

Lemma bind_Raise {A B} (m : M A) (k : A → M B) s e s' :
  m s = (Raise e, s') → bind m k s = (Raise e, s').
Proof. unfold bind. by intros ->. Qed.

Lemma lookup_old h h' l o : h !! l = Some o → (h ++ h') !! l = Some o.
Proof. intros H. by rewrite lookup_app_l; [|eapply lookup_lt_Some]. Qed.

(** A comprehension of constructor calls allocates consecutive addresses. *)
Lemma mapM_alloc {A} (g : A → obj) (xs : list A) s :
  mapM (λ a, alloc (g a)) xs s =
  (Ret (seq (length (heap s)) (length xs)), with_heap (heap s ++ map g xs) s).
Proof.
  revert s. induction xs as [|x xs IH]; intros s; simpl.
  - by rewrite app_nil_r, with_heap_id.
  - unfold bind at 1. unfold alloc at 1. unfold bind at 1.
    rewrite IH. simpl. unfold ret, with_heap. simpl.
    rewrite length_app, <- app_assoc. simpl.
    by replace (length (heap s) + 1) with (S (length (heap s))) by lia.
Qed.

(** A comprehension of attribute reads leaves the state alone. *)
Lemma mapM_read {A B} (f : A → M B) (g : A → B) (xs : list A) s :
  Forall (λ a, f a s = (Ret (g a), s)) xs →
  mapM f xs s = (Ret (map g xs), s).
Proof.
  induction 1 as [|x xs Hx _ IH]; simpl; [done|].
  unfold bind at 1. rewrite Hx. unfold bind at 1. by rewrite IH.
Qed.

End heap_lemmas.

(** ** The mappers *)

(** What [user_model_to_entity] builds: the user at the first new address,
    its cars right behind it, each pointing back at that user. *)
Lemma user_model_to_entity_spec (um : UserModel) (s : State) :
  let u := length (heap s) in
  user_model_to_entity um s =
  (Ret u,
   with_heap (heap s ++
              UserEntity (um_id um) (um_name um) (seq (S u) (length (um_cars um))) ::
              map (λ c, CarEntity (cf_id c) (cf_brand c) (Some u)) (um_cars um)) s).
Proof.
  intros u. unfold user_model_to_entity.
  unfold bind at 1. unfold alloc at 1. unfold bind at 1.
  rewrite mapM_alloc. simpl. unfold bind, set_cars, ret. simpl.
  rewrite length_app. simpl.
  replace (length (heap s) + 1) with (S u) by (unfold u; lia).
  rewrite <- app_assoc. simpl.
  rewrite list_lookup_middle by done.
  unfold with_heap. simpl. do 2 f_equal.
  by rewrite insert_app_r_alt, Nat.sub_diag by done.
Qed.

(** What [user_entity_to_model] reads off a user whose cars are cars. *)
Definition is_car (h : list obj) (c : loc) : Prop :=
  ∃ i b u, h !! c = Some (CarEntity i b u).

Definition car_fields (h : list obj) (c : loc) : CarFields :=
  match h !! c with
  | Some (CarEntity i b _) => {| cf_id := i; cf_brand := b |}
  | _ => {| cf_id := ""; cf_brand := "" |}
  end.

Lemma user_entity_to_model_spec (s : State) (u : loc) (i n : string) (cs : list loc) :
  heap s !! u = Some (UserEntity i n cs) →
  Forall (is_car (heap s)) cs →
  user_entity_to_model u s =
  (Ret {| um_id := i; um_name := n; um_cars := map (car_fields (heap s)) cs |}, s).
Proof.
  intros Hu Hcs. unfold user_entity_to_model.
  erewrite bind_Ret; [|unfold get_id; by rewrite Hu].
  erewrite bind_Ret; [|unfold get_name; by rewrite Hu].
  erewrite bind_Ret; [|unfold get_cars; by rewrite Hu].
  erewrite bind_Ret; [done|].
  apply mapM_read with (g := car_fields (heap s)).
  eapply Forall_impl; [exact Hcs|]. intros c (ci & cb & cu & Hc). simpl.
  unfold bind, get_id, get_brand, car_fields, ret. rewrite Hc. simpl. by rewrite Hc.
Qed.

(** C5. Round trip: for a user entity [u] with a non-empty collection of cars,
    [user_entity_to_model] followed by [user_model_to_entity] returns a user
    entity with the identifier and name of [u] and, position by position, cars
    with the identifiers and brands of the cars of [u]; the owner of each
    rebuilt car is the rebuilt user itself. *)
Theorem roundtrip_user (s : State) (u : loc) (i n : string) (cs : list loc) :
  heap s !! u = Some (UserEntity i n cs) →
  cs ≠ [] →
  Forall (is_car (heap s)) cs →
  ∃ m s1 u' s2 cs',
    user_entity_to_model u s = (Ret m, s1) ∧
    user_model_to_entity m s1 = (Ret u', s2) ∧
    heap s2 !! u' = Some (UserEntity i n cs') ∧
    Forall2 (λ c c', ∃ ci cb cu,
               heap s !! c = Some (CarEntity ci cb cu) ∧
               heap s2 !! c' = Some (CarEntity ci cb (Some u'))) cs cs'.
Proof.
  intros Hu _ Hcs.
  eexists _, _, _, _, _. split; [by apply user_entity_to_model_spec|].
  split; [apply user_model_to_entity_spec|]. simpl.
  split; [by rewrite list_lookup_middle|].
  rewrite length_map.
  apply Forall2_same_length_lookup_2; [by rewrite length_seq|].
  intros k c c' Hc Hc'.
  apply lookup_seq in Hc' as [-> Hk].
  rewrite Forall_lookup in Hcs. destruct (Hcs _ _ Hc) as (ci & cb & cu & Hci).
  exists ci, cb, cu. split; [done|].
  rewrite lookup_app_r by lia.
  replace (S (length (heap s)) + k - length (heap s)) with (S k) by lia. simpl.
  rewrite list_lookup_fmap, list_lookup_fmap, Hc. simpl.
  unfold car_fields. by rewrite Hci.
Qed.

Definition h_demo : list obj :=
  [CarEntity "car1" "Audi" None; UserEntity "user1" "John" [0]].

Definition s_demo : State := with_heap h_demo init.

Lemma roundtrip_user_witness :
  ∃ m s1 u' s2 cs',
    user_entity_to_model 1 s_demo = (Ret m, s1) ∧
    user_model_to_entity m s1 = (Ret u', s2) ∧
    heap s2 !! u' = Some (UserEntity "user1" "John" cs') ∧
    Forall2 (λ c c', ∃ ci cb cu,
               heap s_demo !! c = Some (CarEntity ci cb cu) ∧
               heap s2 !! c' = Some (CarEntity ci cb (Some u'))) [0] cs'.
Proof.
  apply (roundtrip_user s_demo 1 "user1" "John" [0]).
  - reflexivity.
  - discriminate.
  - repeat constructor. by exists "car1", "Audi", None.
Defined.

(** What [car_model_to_entity] builds for a car with an owner: the car at the
    first new address and a new user behind it. *)
Lemma car_model_to_entity_spec (car : CarModel) (owner : UserModel) (s : State) :
  cm_user car = Some owner →
  let c := length (heap s) in
  car_model_to_entity car s =
  (Ret c,
   with_heap (heap s ++ [CarEntity (cm_id car) (cm_brand car) (Some (S c));
                         UserEntity (um_id owner) (um_name owner) [c]]) s).
Proof.
  intros Ho c. unfold car_model_to_entity. rewrite Ho.
  unfold bind, alloc, deref, ret, set_user. simpl.
  rewrite length_app. simpl.
  replace (length (heap s) + 1) with (S c) by (unfold c; lia).
  rewrite <- app_assoc. simpl. rewrite list_lookup_middle by done.
  unfold with_heap. simpl. do 2 f_equal.
  by rewrite insert_app_r_alt, Nat.sub_diag by done.
Qed.

(** For a car without an owner the car entity is built, then the read of
    [car.user.id] fails. *)
Lemma car_model_to_entity_None (car : CarModel) (s : State) :
  cm_user car = None →
  car_model_to_entity car s =
  (Raise AttributeError,
   with_heap (heap s ++ [CarEntity (cm_id car) (cm_brand car) None]) s).
Proof. intros Ho. unfold car_model_to_entity. by rewrite Ho. Qed.

(** C7. For a car record with an owner, [car_model_to_entity] returns a car
    entity whose owner is a new user entity with the owner's identifier and
    name whose collection of cars is exactly that one car, whatever cars the
    owner record has. *)
Theorem car_model_to_entity_minimal_owner (s : State) (car : CarModel) (owner : UserModel) :
  cm_user car = Some owner →
  ∃ ce ue s',
    car_model_to_entity car s = (Ret ce, s') ∧
    heap s' !! ce = Some (CarEntity (cm_id car) (cm_brand car) (Some ue)) ∧
    heap s' !! ue = Some (UserEntity (um_id owner) (um_name owner) [ce]).
Proof.
  intros Ho. eexists _, _, _.
  split; [by apply car_model_to_entity_spec|]. simpl. split.
  - by rewrite list_lookup_middle.
  - rewrite lookup_app_r by lia.
    by replace (S (length (heap s)) - length (heap s)) with 1 by lia.
Qed.

(** An owner record with two cars, and one of its cars. *)
Definition owner_demo : UserModel :=
  {| um_id := "user1"; um_name := "John";
     um_cars := [ {| cf_id := "car1"; cf_brand := "Audi" |};
                  {| cf_id := "car2"; cf_brand := "Fiat" |} ] |}.

Definition car_demo : CarModel :=
  {| cm_id := "car2"; cm_brand := "Fiat"; cm_user := Some owner_demo |}.

Lemma car_model_to_entity_minimal_owner_witness :
  ∃ ce ue s',
    car_model_to_entity car_demo init = (Ret ce, s') ∧
    heap s' !! ce = Some (CarEntity "car2" "Fiat" (Some ue)) ∧
    heap s' !! ue = Some (UserEntity "user1" "John" [ce]).
Proof. apply (car_model_to_entity_minimal_owner init car_demo owner_demo). reflexivity. Defined.

(** C3, as the code has it. For a car entity without an owner,
    [car_entity_to_model] raises [AttributeError] at the read of
    [car.user.id], so [CarRepository.add] raises [AttributeError] before it
    reaches the session: the state, and with it the database, is unchanged. *)
Theorem car_without_owner_AttributeError (s : State) (car : loc) (i b : string) :
  heap s !! car = Some (CarEntity i b None) →
  car_entity_to_model car s = (Raise AttributeError, s) ∧
  CarRepository.add car s = (Raise AttributeError, s).
Proof.
  intros Hc.
  assert (car_entity_to_model car s = (Raise AttributeError, s)) as H.
  { unfold car_entity_to_model.
    erewrite bind_Ret; [|unfold get_id; by rewrite Hc].
    erewrite bind_Ret; [|unfold get_brand; by rewrite Hc].
    erewrite bind_Ret; [|unfold get_user; by rewrite Hc].
    done. }
  split; [done|]. unfold CarRepository.add. by erewrite bind_Raise.
Qed.

Lemma car_without_owner_AttributeError_witness :
  car_entity_to_model 0 s_demo = (Raise AttributeError, s_demo) ∧
  CarRepository.add 0 s_demo = (Raise AttributeError, s_demo).
Proof. apply (car_without_owner_AttributeError s_demo 0 "car1" "Audi"). reflexivity. Defined.

(** C3, as stated, fails: the exception is not [InvalidStateError]. *)
Lemma car_without_owner_not_InvalidStateError :
  heap s_demo !! 0 = Some (CarEntity "car1" "Audi" None) ∧
  run (car_entity_to_model 0) s_demo ≠ Raise InvalidStateError ∧
  run (CarRepository.add 0) s_demo ≠ Raise InvalidStateError.
Proof. split; [reflexivity|]. split; vm_compute; discriminate. Qed.

(** ** The session, usable and with nothing staged *)

Section session_lemmas.

Implicit Types (s : State) (k : string).

Lemma session_flush_nothing s :
  new (session s) = [] → inactive (session s) = false →
  session_flush s = (Ret tt, s).
Proof.
  destruct s as [h e [t n a] im tr]. simpl. intros -> ->.
  unfold session_flush. by simpl.
Qed.

(** While the transaction is inactive nothing is flushed. *)
Lemma session_flush_inactive s :
  inactive (session s) = true → session_flush s = (Raise PendingRollbackError, s).
Proof. unfold session_flush. by intros ->. Qed.

Lemma query_get_user_spec s k :
  new (session s) = [] → inactive (session s) = false →
  query_get_user k s =
  (Ret (load_user (txn (session s)) k <$> assoc k (users_t (txn (session s)))),
   with_trace (trace s ++ [EvGetUser k]) s).
Proof.
  intros Hn Ha. unfold query_get_user.
  erewrite bind_Ret; [|reflexivity].
  erewrite bind_Ret; [|by apply session_flush_nothing]. done.
Qed.

Lemma query_get_car_spec s k :
  new (session s) = [] → inactive (session s) = false →
  query_get_car k s =
  (Ret ((λ v, load_car (txn (session s)) (k, v)) <$> assoc k (cars_t (txn (session s)))),
   with_trace (trace s ++ [EvGetCar k]) s).
Proof.
  intros Hn Ha. unfold query_get_car.
  erewrite bind_Ret; [|reflexivity].
  erewrite bind_Ret; [|by apply session_flush_nothing]. done.
Qed.

Lemma query_all_cars_spec s :
  new (session s) = [] → inactive (session s) = false →
  query_all_cars s =
  (Ret (map (load_car (txn (session s))) (cars_t (txn (session s)))),
   with_trace (trace s ++ [EvAllCars]) s).
Proof.
  intros Hn Ha. unfold query_all_cars.
  erewrite bind_Ret; [|reflexivity].
  erewrite bind_Ret; [|by apply session_flush_nothing]. done.
Qed.

Lemma assoc_Some_elem {V} k (v : V) (l : list (string * V)) :
  assoc k l = Some v → (k, v) ∈ l.
Proof.
  induction l as [|[k' v'] l IH]; simpl; [done|].
  case_decide as Hk.
  - intros [= ->]. subst. by left.
  - intros H. right. by apply IH.
Qed.

End session_lemmas.

(** A comprehension raises as soon as one element does, provided the
    elements before it return or raise the same exception. *)
Lemma mapM_Raise {A B} (f : A → M B) (e : exn) (x0 : A) (xs : list A) (s : State) :
  (∀ x s, (∃ y s', f x s = (Ret y, s')) ∨ (∃ s', f x s = (Raise e, s'))) →
  (∀ s, ∃ s', f x0 s = (Raise e, s')) →
  x0 ∈ xs →
  ∃ s', mapM f xs s = (Raise e, s').
Proof.
  intros Hf H0 Hin. revert s.
  induction xs as [|x xs IH]; intros s; [by apply elem_of_nil in Hin|].
  simpl. destruct (Hf x s) as [(y & s1 & Hy)|(s1 & Hy)].
  - erewrite bind_Ret by exact Hy.
    apply elem_of_cons in Hin as [->|Hin].
    + destruct (H0 s) as (s2 & H2). congruence.
    + destruct (IH Hin s1) as (s2 & H2). exists s2. by erewrite bind_Raise.
  - exists s1. by erewrite bind_Raise.
Qed.

(** C10. When the table of cars has a row whose owner is NULL (the session
    being usable, with nothing staged), [CarRepository.get] on its identifier
    and [CarRepository.list] raise [AttributeError] (the read of
    [car.user.id] on [None]): they neither return the car nor raise one of
    the error kinds of the specification. *)
Theorem car_record_without_owner_AttributeError (s : State) (k b : string) :
  new (session s) = [] →
  inactive (session s) = false →
  assoc k (cars_t (txn (session s))) = Some (b, None) →
  run (CarRepository.get k) s = Raise AttributeError ∧
  run CarRepository.list s = Raise AttributeError.
Proof.
  intros Hn Ha Hk. split.
  - unfold run, CarRepository.get.
    erewrite bind_Ret; [|by apply query_get_car_spec]. by rewrite Hk.
  - unfold run, CarRepository.list.
    erewrite bind_Ret; [|by apply query_all_cars_spec].
    edestruct (mapM_Raise car_model_to_entity AttributeError
                 (load_car (txn (session s)) (k, (b, None)))) as (s' & ->); [| | |done].
    + intros c s0. destruct (cm_user c) as [o|] eqn:Ho.
      * left. eexists _, _. by apply car_model_to_entity_spec.
      * right. eexists. by apply car_model_to_entity_None.
    + intros s0. eexists. by apply car_model_to_entity_None.
    + apply list_elem_of_fmap. eexists. split; [done|]. by apply assoc_Some_elem.
Qed.

(** A database with one car whose owner is NULL, behind a car with an owner. *)
Definition db_orphan : DB :=
  {| users_t := [("user1", "John")];
     cars_t := [("car1", ("Audi", Some "user1")); ("car9", ("Saab", None))] |}.

Definition s_orphan : State :=
  {| heap := []; engine := db_orphan;
     session := {| txn := db_orphan; new := []; inactive := false |};
     identity_map := ∅; trace := [] |}.

Lemma car_record_without_owner_AttributeError_witness :
  run (CarRepository.get "car9") s_orphan = Raise AttributeError ∧
  run CarRepository.list s_orphan = Raise AttributeError.
Proof.
  apply (car_record_without_owner_AttributeError s_orphan "car9" "Saab"); reflexivity.
Defined.

(** ** Unit of work *)

(** What [__exit__] does in any state: [rollback], then [close]; what was
    staged or flushed without a commit is dropped and the committed database
    is the one before. *)
Lemma exit_spec (s : State) :
  MainUnitOfWork.__exit__ s =
  (Ret tt, with_trace (trace s ++ [EvRollback; EvClose]) (with_session (clean s) s)).
Proof.
  unfold MainUnitOfWork.__exit__, AbstractUnitOfWork.__exit__, MainUnitOfWork.rollback,
    session_rollback, session_close, bind, log, with_trace, with_session, clean. simpl.
  by rewrite <- app_assoc.
Qed.

(** C6. Whatever the body of [with main_uow:] does, and whether it returns or
    raises, leaving the scope calls [rollback] on the session and then
    [close], in that order, and returns or raises what the body did. Leaving
    the scope commits nothing: the committed database is the one the body
    left, and nothing staged or flushed without a commit survives in the
    session. *)
Theorem exit_rolls_back_then_closes {A} (body : M A) (s s2 : State) (r : outcome A) :
  body (exec MainUnitOfWork.__enter__ s) = (r, s2) →
  ∃ s3,
    with_uow body s = (r, s3) ∧
    trace s3 = trace s2 ++ [EvRollback; EvClose] ∧
    engine s3 = engine s2 ∧
    session s3 = {| txn := engine s2; new := []; inactive := false |} ∧
    heap s3 = heap s2 ∧ identity_map s3 = identity_map s2.
Proof.
  intros Hb. unfold with_uow.
  erewrite bind_Ret; [|reflexivity]. unfold exec in Hb. simpl in Hb. rewrite Hb.
  rewrite exit_spec. eexists. split; [done|]. by simpl.
Qed.

(** A body that stages a record without committing and then fails. *)
Definition body_demo : M unit :=
  session_add (MUser owner_demo);; raise AttributeError.

Lemma exit_rolls_back_then_closes_witness :
  ∃ s3,
    with_uow body_demo init = (Raise AttributeError, s3) ∧
    trace s3 = [EvAdd (MUser owner_demo)] ++ [EvRollback; EvClose] ∧
    engine s3 = empty_db ∧
    session s3 = {| txn := empty_db; new := []; inactive := false |} ∧
    heap s3 = [] ∧ identity_map s3 = ∅.
Proof.
  apply (exit_rolls_back_then_closes body_demo init
           (exec body_demo (exec MainUnitOfWork.__enter__ init)) (Raise AttributeError)).
  reflexivity.
Defined.

(** ** Flushing a user record *)

Section flush_lemmas.

Implicit Types (db : DB) (m : UserModel) (k : string).

Lemma assoc_app_new {V} k (v : V) (l : list (string * V)) :
  assoc k l = None → assoc k (l ++ [(k, v)]) = Some v.
Proof.
  induction l as [|[k' v'] l IH]; simpl.
  - by rewrite decide_True.
  - case_decide; [done|]. exact IH.
Qed.

Lemma insert_cars_users db rs db' :
  insert_cars db rs = Some db' → users_t db' = users_t db.
Proof.
  revert db. induction rs as [|r rs IH]; intros db; simpl.
  - by intros [= ->].
  - unfold insert_car. destruct (assoc r.1 (cars_t db)); [done|].
    intros H. by rewrite (IH _ H).
Qed.

(** After a flush that went through, the user row is in the table. *)
Lemma flush_user_Some db m db' :
  flush_user db m = Some db' → assoc (um_id m) (users_t db') = Some (um_name m).
Proof.
  unfold flush_user, insert_user. simpl.
  destruct (assoc (um_id m) (users_t db)) eqn:Hk; [done|].
  intros H. rewrite (insert_cars_users _ _ _ H). simpl. by apply assoc_app_new.
Qed.

(** A user row with that identifier makes the flush fail. *)
Lemma flush_user_dup db m v :
  assoc (um_id m) (users_t db) = Some v → flush_user db m = None.
Proof. unfold flush_user, insert_user. simpl. by intros ->. Qed.

Lemma flush_app db (ms ms' : list model) :
  flush db (ms ++ ms') = match flush db ms with
                         | Some db1 => flush db1 ms'
                         | None => None
                         end.
Proof.
  revert db. induction ms as [|x ms IH]; intros db; simpl; [done|].
  destruct (flush_model db x); [apply IH|done].
Qed.

Lemma flush_staged_user_Some db ms m db' :
  flush db (ms ++ [MUser m]) = Some db' →
  assoc (um_id m) (users_t db') = Some (um_name m).
Proof.
  rewrite flush_app. destruct (flush db ms) as [db1|]; [|done]. simpl.
  destruct (flush_user db1 m) as [db2|] eqn:H; [|done].
  intros [= <-]. by eapply flush_user_Some.
Qed.

End flush_lemmas.

(** ** The user repository *)

Section user_repository.

Implicit Types (s : State) (k n : string) (u : loc).

(** [user_entity_to_model] only reads: it returns a record with the
    identifier and name of the entity, or raises [AttributeError]. *)
Lemma mapM_read_cases {A B} (f : A → M B) (e : exn) (xs : list A) s :
  (∀ a, (∃ b, f a s = (Ret b, s)) ∨ f a s = (Raise e, s)) →
  (∃ bs, mapM f xs s = (Ret bs, s)) ∨ mapM f xs s = (Raise e, s).
Proof.
  intros Hf. induction xs as [|x xs IH]; simpl; [left; by eexists|].
  destruct (Hf x) as [(b & Hb)|Hb].
  - erewrite bind_Ret by exact Hb. destruct IH as [(bs & Hbs)|Hbs].
    + left. eexists. by erewrite bind_Ret by exact Hbs.
    + right. by erewrite bind_Raise by exact Hbs.
  - right. by erewrite bind_Raise by exact Hb.
Qed.

Lemma user_entity_to_model_cases s u k n cs :
  heap s !! u = Some (UserEntity k n cs) →
  (∃ cars, user_entity_to_model u s =
           (Ret {| um_id := k; um_name := n; um_cars := cars |}, s)) ∨
  user_entity_to_model u s = (Raise AttributeError, s).
Proof.
  intros Hu. unfold user_entity_to_model.
  erewrite bind_Ret; [|unfold get_id; by rewrite Hu].
  erewrite bind_Ret; [|unfold get_name; by rewrite Hu].
  erewrite bind_Ret; [|unfold get_cars; by rewrite Hu].
  edestruct (mapM_read_cases
               (λ car, let* ci := get_id car in
                       let* cb := get_brand car in
                       ret {| cf_id := ci; cf_brand := cb |})
               AttributeError cs s) as [(bs & Hbs)|Hbs].
  - intros c. unfold bind, get_id, get_brand, ret.
    destruct (heap s !! c) as [[? ? ?|? ? ?]|] eqn:Hc; simpl; rewrite ?Hc; eauto.
  - left. eexists. by erewrite bind_Ret by exact Hbs.
  - right. by erewrite bind_Raise by exact Hbs.
Qed.

(** How [UserRepository.add] ends once the mapper has returned record [m]:
    the identity map holds the entity, the record was staged and [commit]
    called; an inactive transaction refuses the commit, otherwise the flush
    decides the rest. *)
Definition add_result s k u (m : UserModel) : outcome unit * State :=
  let s1 := with_trace (trace s ++ [EvAdd (MUser m); EvCommit])
              (with_identity_map (<[k := u]> (identity_map s)) s) in
  if inactive (session s)
  then (Raise PendingRollbackError,
        with_session {| txn := txn (session s); new := new (session s) ++ [MUser m];
                        inactive := true |} s1)
  else match flush (txn (session s)) (new (session s) ++ [MUser m]) with
       | Some db =>
           (Ret tt, with_engine db
                      (with_session {| txn := db; new := []; inactive := false |} s1))
       | None => (Raise IntegrityError, with_session (failed s) s1)
       end.

Lemma add_after_mapper s u k n cs m :
  heap s !! u = Some (UserEntity k n cs) →
  let s0 := with_identity_map (<[k := u]> (identity_map s)) s in
  user_entity_to_model u s0 = (Ret m, s0) →
  UserRepository.add u s = add_result s k u m.
Proof.
  intros Hu s0 Hm. unfold UserRepository.add.
  erewrite bind_Ret; [|unfold get_id; by rewrite Hu].
  erewrite bind_Ret; [|reflexivity]. fold s0.
  erewrite bind_Ret by exact Hm.
  unfold add_result, session_add, session_commit, session_flush, bind, log. simpl.
  rewrite <- app_assoc. simpl.
  destruct (inactive (session s)); [reflexivity|].
  destruct (flush _ _); reflexivity.
Qed.

(** An [add] that returned went through an active transaction and a flush
    that succeeded. *)
Lemma add_result_Ret s k u m s1 :
  add_result s k u m = (Ret tt, s1) →
  ∃ db,
    inactive (session s) = false ∧
    flush (txn (session s)) (new (session s) ++ [MUser m]) = Some db ∧
    s1 = with_engine db
           (with_session {| txn := db; new := []; inactive := false |}
              (with_trace (trace s ++ [EvAdd (MUser m); EvCommit])
                 (with_identity_map (<[k := u]> (identity_map s)) s))).
Proof.
  unfold add_result. destruct (inactive (session s)); [done|].
  destruct (flush _ _) as [db|]; [|done]. intros [= <-]. by exists db.
Qed.

(** Either the mapper fails, with the entity already in the identity map,
    or [add] ends as above for a record with the entity's identifier and
    name. *)
Lemma add_cases s u k n cs :
  heap s !! u = Some (UserEntity k n cs) →
  UserRepository.add u s =
    (Raise AttributeError, with_identity_map (<[k := u]> (identity_map s)) s) ∨
  ∃ cars, UserRepository.add u s =
          add_result s k u {| um_id := k; um_name := n; um_cars := cars |}.
Proof.
  intros Hu.
  set (s0 := with_identity_map (<[k := u]> (identity_map s)) s).
  destruct (user_entity_to_model_cases s0 u k n cs Hu) as [(cars & Hm)|Hm].
  - right. exists cars. by eapply add_after_mapper.
  - left. unfold UserRepository.add.
    erewrite bind_Ret; [|unfold get_id; by rewrite Hu].
    erewrite bind_Ret; [|reflexivity]. fold s0.
    by erewrite bind_Raise by exact Hm.
Qed.

(** For an entity whose cars are cars the mapper returns. *)
Lemma add_valid s u k n cs :
  heap s !! u = Some (UserEntity k n cs) →
  Forall (is_car (heap s)) cs →
  UserRepository.add u s =
  add_result s k u {| um_id := k; um_name := n; um_cars := map (car_fields (heap s)) cs |}.
Proof.
  intros Hu Hcs. eapply add_after_mapper; [done|].
  by apply (user_entity_to_model_spec (with_identity_map _ s)).
Qed.

(** [get] on an identifier that is in the table of users and in the
    identity map returns the instance of the map; only the trace and the
    heap (the entity built and dropped) change. *)
Lemma get_hit s k n u :
  new (session s) = [] →
  inactive (session s) = false →
  assoc k (users_t (txn (session s))) = Some n →
  identity_map s !! k = Some u →
  ∃ h, UserRepository.get k s =
       (Ret (Some u), with_heap (heap s ++ h) (with_trace (trace s ++ [EvGetUser k]) s)).
Proof.
  intros Hn Ha Hk Hu. unfold UserRepository.get.
  erewrite bind_Ret; [|by apply query_get_user_spec]. rewrite Hk. simpl.
  erewrite bind_Ret; [|apply user_model_to_entity_spec]. simpl.
  erewrite bind_Ret; [|unfold get_id; simpl; by rewrite list_lookup_middle].
  simpl. rewrite Hu. by eexists.
Qed.

(** Such a call can be repeated. *)
Lemma get_hit_again s k n u :
  new (session s) = [] →
  inactive (session s) = false →
  assoc k (users_t (txn (session s))) = Some n →
  identity_map s !! k = Some u →
  ∃ s', UserRepository.get k s = (Ret (Some u), s') ∧
        new (session s') = [] ∧
        inactive (session s') = false ∧
        assoc k (users_t (txn (session s'))) = Some n ∧
        identity_map s' !! k = Some u.
Proof.
  intros Hn Ha Hk Hu. destruct (get_hit s k n u Hn Ha Hk Hu) as (h & ->).
  by eexists.
Qed.

(** [get] on an identifier that is in the table of users and not in the
    identity map returns a new entity with the row's identifier and name
    and records it in the map. *)
Lemma get_load s k n :
  new (session s) = [] →
  inactive (session s) = false →
  assoc k (users_t (txn (session s))) = Some n →
  identity_map s !! k = None →
  ∃ cs h s',
    UserRepository.get k s = (Ret (Some (length (heap s))), s') ∧
    heap s' = heap s ++ UserEntity k n cs :: h ∧
    identity_map s' = <[k := length (heap s)]> (identity_map s).
Proof.
  intros Hn Ha Hk Hu. unfold UserRepository.get.
  erewrite bind_Ret; [|by apply query_get_user_spec]. rewrite Hk. simpl.
  erewrite bind_Ret; [|apply user_model_to_entity_spec]. simpl.
  erewrite bind_Ret; [|unfold get_id; simpl; by rewrite list_lookup_middle].
  simpl. rewrite Hu. by eexists _, _, _.
Qed.

(** [get] on an identifier that is not in the table of users. *)
Lemma get_absent s k :
  new (session s) = [] →
  inactive (session s) = false →
  assoc k (users_t (txn (session s))) = None →
  UserRepository.get k s = (Ret None, with_trace (trace s ++ [EvGetUser k]) s).
Proof.
  intros Hn Ha Hk. unfold UserRepository.get.
  erewrite bind_Ret; [|by apply query_get_user_spec]. by rewrite Hk.
Qed.

End user_repository.

(** The whole of [with main_uow: body]. *)
Lemma with_uow_spec {A} (body : M A) (s : State) :
  let s' := with_identity_map ∅ (with_session (clean s) s) in
  with_uow body s =
  ((body s').1,
   with_trace (trace (body s').2 ++ [EvRollback; EvClose])
     (with_session (clean (body s').2) (body s').2)).
Proof.
  intros s'. unfold with_uow. erewrite bind_Ret; [|reflexivity]. fold s'.
  destruct (body s') as [r s2]. by rewrite exit_spec.
Qed.

(** C1. After [users.add] of an entity with identifier [k] has returned, two
    calls of [users.get(k)] return the same object: both return the address of
    the entity that was added, the one the identity map holds. *)
Theorem get_twice_same_instance (s s1 : State) (u : loc) (k n : string) (cs : list loc) :
  heap s !! u = Some (UserEntity k n cs) →
  UserRepository.add u s = (Ret tt, s1) →
  ∃ s2 s3,
    UserRepository.get k s1 = (Ret (Some u), s2) ∧
    UserRepository.get k s2 = (Ret (Some u), s3).
Proof.
  intros Hu Hadd.
  destruct (add_cases s u k n cs Hu) as [H|(cars & H)]; rewrite H in Hadd; [done|].
  apply add_result_Ret in Hadd as (db & _ & Hf & ->).
  apply flush_staged_user_Some in Hf. simpl in Hf.
  edestruct (get_hit_again (with_engine db
               (with_session {| txn := db; new := []; inactive := false |}
                  (with_trace (trace s ++ [EvAdd (MUser
                     {| um_id := k; um_name := n; um_cars := cars |}); EvCommit])
                     (with_identity_map (<[k := u]> (identity_map s)) s)))) k n u)
    as (s2 & Hg & Hn2 & Ha2 & Hk2 & Hu2);
    [done|done|done|by simpl; rewrite lookup_insert_eq|].
  destruct (get_hit_again s2 k n u Hn2 Ha2 Hk2 Hu2) as (s3 & Hg' & _).
  by exists s2, s3.
Qed.

Lemma get_twice_same_instance_witness :
  ∃ s2 s3,
    UserRepository.get "user1" (exec (UserRepository.add 1) s_demo) = (Ret (Some 1), s2) ∧
    UserRepository.get "user1" s2 = (Ret (Some 1), s3).
Proof.
  apply (get_twice_same_instance s_demo (exec (UserRepository.add 1) s_demo)
           1 "user1" "John" [0]); reflexivity.
Defined.

(** C8. When the session is usable with nothing staged and the table of
    users has no row with identifier [k], [users.get(k)] returns [None] and
    leaves the identity map
    as it was; the call queried the session. A second call queries the
    session again and returns [None] again; and in the state the first call
    left, once the table has a row for [k], [users.get(k)] returns an
    entity: no absence was recorded. *)
Theorem get_absent_no_negative_caching (s : State) (k : string) :
  new (session s) = [] →
  inactive (session s) = false →
  assoc k (users_t (txn (session s))) = None →
  ∃ s1 s2,
    UserRepository.get k s = (Ret None, s1) ∧
    identity_map s1 = identity_map s ∧
    trace s1 = trace s ++ [EvGetUser k] ∧
    UserRepository.get k s1 = (Ret None, s2) ∧
    identity_map s2 = identity_map s ∧
    trace s2 = trace s ++ [EvGetUser k; EvGetUser k] ∧
    ∀ db n, assoc k (users_t db) = Some n →
      ∃ e, run (UserRepository.get k)
             (with_session {| txn := db; new := []; inactive := false |} s1) =
           Ret (Some e).
Proof.
  intros Hn Ha Hk. eexists _, _.
  split; [by apply get_absent|]. split; [done|]. split; [done|].
  split; [by apply get_absent|]. split; [done|].
  split; [by simpl; rewrite <- app_assoc|].
  intros db n Hdb. unfold run.
  destruct (identity_map s !! k) as [u|] eqn:Hu.
  - edestruct get_hit as (h & ->); [| | |exact Hu|]; simpl; [done|done|exact Hdb|].
    by eexists.
  - edestruct get_load as (cs & h & s' & -> & _); [| | |exact Hu|]; simpl;
      [done|done|exact Hdb|].
    by eexists.
Qed.

Lemma get_absent_no_negative_caching_witness :
  ∃ s1 s2,
    UserRepository.get "nobody" s_demo = (Ret None, s1) ∧
    identity_map s1 = identity_map s_demo ∧
    trace s1 = trace s_demo ++ [EvGetUser "nobody"] ∧
    UserRepository.get "nobody" s1 = (Ret None, s2) ∧
    identity_map s2 = identity_map s_demo ∧
    trace s2 = trace s_demo ++ [EvGetUser "nobody"; EvGetUser "nobody"] ∧
    ∀ db n, assoc "nobody" (users_t db) = Some n →
      ∃ e, run (UserRepository.get "nobody")
             (with_session {| txn := db; new := []; inactive := false |} s1) =
           Ret (Some e).
Proof. apply (get_absent_no_negative_caching s_demo "nobody"); reflexivity. Defined.

(** [UserRepository.add] writes the identity map first: however it ends, the
    map holds the entity under its identifier. *)
Lemma add_identity_map_first (s : State) (u : loc) (k n : string) (cs : list loc) :
  heap s !! u = Some (UserEntity k n cs) →
  identity_map (exec (UserRepository.add u) s) !! k = Some u.
Proof.
  intros Hu. unfold exec.
  destruct (add_cases s u k n cs Hu) as [->|(cars & ->)]; simpl.
  - by rewrite lookup_insert_eq.
  - unfold add_result. destruct (inactive (session s)); [|destruct (flush _ _)];
      simpl; by rewrite lookup_insert_eq.
Qed.

(** A query on a session whose transaction is inactive. *)
Lemma get_inactive (s : State) (k : string) :
  inactive (session s) = true →
  UserRepository.get k s =
  (Raise PendingRollbackError, with_trace (trace s ++ [EvGetUser k]) s).
Proof.
  intros Ha. unfold UserRepository.get.
  erewrite bind_Raise; [done|]. unfold query_get_user.
  erewrite bind_Ret; [|reflexivity].
  erewrite bind_Raise; [done|]. by apply session_flush_inactive.
Qed.

(** C9, as the code has it. [UserRepository.add] puts the entity into the
    identity map before it reaches the session. When the table of users
    already has a row with the entity's identifier, the commit raises
    [IntegrityError], the database is unchanged and the identity map holds
    the entity that was not stored. The session then waits for
    [rollback()]: [users.get] on that identifier raises
    [PendingRollbackError] until then, and after [rollback()] it returns
    that entity (with its own name), not one built from the stored row. *)
Theorem failed_add_stays_in_identity_map
    (s : State) (u : loc) (k n n0 : string) (cs : list loc) :
  heap s !! u = Some (UserEntity k n cs) →
  Forall (is_car (heap s)) cs →
  session s = clean s →
  assoc k (users_t (engine s)) = Some n0 →
  ∃ s1 s2 s3,
    UserRepository.add u s = (Raise IntegrityError, s1) ∧
    engine s1 = engine s ∧
    identity_map s1 !! k = Some u ∧
    UserRepository.get k s1 = (Raise PendingRollbackError, s2) ∧
    identity_map s2 !! k = Some u ∧
    (MainUnitOfWork.rollback;; UserRepository.get k) s1 = (Ret (Some u), s3) ∧
    heap s3 !! u = Some (UserEntity k n cs) ∧
    assoc k (users_t (engine s3)) = Some n0.
Proof.
  intros Hu Hcs Hs Hk.
  rewrite (add_valid s u k n cs Hu Hcs). unfold add_result. rewrite Hs. simpl.
  erewrite flush_user_dup by exact Hk.
  set (s1 := with_session (failed s)
               (with_trace (trace s ++ [EvAdd (MUser
                  {| um_id := k; um_name := n;
                     um_cars := map (car_fields (heap s)) cs |}); EvCommit])
                  (with_identity_map (<[k := u]> (identity_map s)) s))).
  assert (identity_map s1 !! k = Some u) as Him by apply lookup_insert_eq.
  destruct (get_hit (with_session (clean s1) (with_trace (trace s1 ++ [EvRollback]) s1))
              k n0 u) as (h' & Hg'); [done|done|exact Hk|exact Him|].
  eexists s1, _, _. split; [done|]. split; [done|]. split; [exact Him|].
  split; [by apply get_inactive|]. split; [exact Him|].
  split; [erewrite bind_Ret; [exact Hg'|reflexivity]|].
  split; [by apply lookup_old|exact Hk].
Qed.

(** A committed user "user1"/"John" and a second entity "user1"/"Eve". *)
Definition db_john : DB := {| users_t := [("user1", "John")]; cars_t := [] |}.

Definition s_john : State :=
  {| heap := [UserEntity "user1" "Eve" []]; engine := db_john;
     session := {| txn := db_john; new := []; inactive := false |};
     identity_map := ∅; trace := [] |}.

Lemma failed_add_stays_in_identity_map_witness :
  ∃ s1 s2 s3,
    UserRepository.add 0 s_john = (Raise IntegrityError, s1) ∧
    engine s1 = engine s_john ∧
    identity_map s1 !! "user1" = Some 0 ∧
    UserRepository.get "user1" s1 = (Raise PendingRollbackError, s2) ∧
    identity_map s2 !! "user1" = Some 0 ∧
    (MainUnitOfWork.rollback;; UserRepository.get "user1") s1 = (Ret (Some 0), s3) ∧
    heap s3 !! 0 = Some (UserEntity "user1" "Eve" []) ∧
    assoc "user1" (users_t (engine s3)) = Some "John".
Proof.
  apply (failed_add_stays_in_identity_map s_john 0 "user1" "Eve" "John" []);
    [reflexivity|constructor|reflexivity|reflexivity].
Defined.

(** C9, as stated, fails: the [users.get] that follows the failed [add]
    returns no entity, it raises [PendingRollbackError]. *)
Lemma get_after_failed_add_raises :
  run (UserRepository.add 0) s_john = Raise IntegrityError ∧
  run (UserRepository.get "user1") (exec (UserRepository.add 0) s_john) =
    Raise PendingRollbackError ∧
  run (UserRepository.get "user1") (exec (UserRepository.add 0) s_john) ≠ Ret (Some 0).
Proof. split; [reflexivity|]. split; [reflexivity|]. vm_compute. discriminate. Qed.

(** C4, as the code has it. After [users.add] of an entity with identifier
    [k] has returned, [users.add] of an entity with the same identifier raises
    [IntegrityError], the exception of the session, which [add] lets through;
    the committed database is the one before the second call and the session
    holds nothing of the second entity (it waits for [rollback()]). *)
Theorem second_add_IntegrityError
    (s s1 : State) (u1 u2 : loc) (k n1 n2 : string) (cs1 cs2 : list loc) :
  heap s !! u1 = Some (UserEntity k n1 cs1) →
  UserRepository.add u1 s = (Ret tt, s1) →
  heap s1 !! u2 = Some (UserEntity k n2 cs2) →
  Forall (is_car (heap s1)) cs2 →
  ∃ s2,
    UserRepository.add u2 s1 = (Raise IntegrityError, s2) ∧
    engine s2 = engine s1 ∧
    session s2 = {| txn := engine s1; new := []; inactive := true |}.
Proof.
  intros Hu1 Hadd Hu2 Hcs2.
  destruct (add_cases s u1 k n1 cs1 Hu1) as [H|(cars & H)]; rewrite H in Hadd; [done|].
  apply add_result_Ret in Hadd as (db & _ & Hf & ->).
  apply flush_staged_user_Some in Hf. simpl in Hf.
  rewrite (add_valid _ u2 k n2 cs2 Hu2 Hcs2). unfold add_result. simpl.
  erewrite flush_user_dup by exact Hf. by eexists.
Qed.

Lemma second_add_IntegrityError_witness :
  ∃ s2,
    UserRepository.add 1 (exec (UserRepository.add 1) s_demo) = (Raise IntegrityError, s2) ∧
    engine s2 = engine (exec (UserRepository.add 1) s_demo) ∧
    session s2 = {| txn := engine (exec (UserRepository.add 1) s_demo); new := [];
                    inactive := true |}.
Proof.
  apply (second_add_IntegrityError s_demo (exec (UserRepository.add 1) s_demo)
           1 1 "user1" "John" "John" [0] [0]).
  - reflexivity.
  - reflexivity.
  - reflexivity.
  - repeat constructor. by exists "car1", "Audi", None.
Defined.

(** C4, as stated, fails: the second call does not raise
    [DuplicateKeyError]. *)
Lemma second_add_not_DuplicateKeyError :
  run (UserRepository.add 1) s_demo = Ret tt ∧
  run (UserRepository.add 1) (exec (UserRepository.add 1) s_demo) ≠ Raise DuplicateKeyError.
Proof. split; [reflexivity|]. vm_compute. discriminate. Qed.

(** C2, as the code has it. [users.add] commits, so the [rollback] after it
    has nothing to undo: when a scope in which [users.add(x)] was followed by
    [rollback()] has ended, [users.get(x.id)] in the next scope returns an
    entity with the identifier and name of [x]. *)
Theorem add_then_rollback_persists
    (s s1 : State) (x : loc) (k n : string) (cs : list loc) :
  heap s !! x = Some (UserEntity k n cs) →
  with_uow (UserRepository.add x;; MainUnitOfWork.rollback) s = (Ret tt, s1) →
  ∃ e cs' s2,
    with_uow (UserRepository.get k) s1 = (Ret (Some e), s2) ∧
    heap s2 !! e = Some (UserEntity k n cs').
Proof.
  intros Hx Hrun. rewrite with_uow_spec in Hrun.
  set (s' := with_identity_map ∅ (with_session (clean s) s)) in Hrun.
  assert (assoc k (users_t (engine s1)) = Some n) as He.
  { destruct (add_cases s' x k n cs Hx) as [H|(cars & H)].
    { erewrite bind_Raise in Hrun by exact H. done. }
    destruct (add_result s' k x _) as [[[]|e] sA] eqn:HR.
    2: { erewrite bind_Raise in Hrun by exact H. done. }
    apply add_result_Ret in HR as (db & _ & Hf & ->).
    erewrite bind_Ret in Hrun by exact H.
    apply flush_staged_user_Some in Hf.
    apply (f_equal snd) in Hrun. cbn [snd] in Hrun. subst s1. exact Hf. }
  clear Hrun. rewrite with_uow_spec.
  destruct (get_load (with_identity_map ∅ (with_session (clean s1) s1)) k n)
    as (cs' & h & s2 & Hg & Hh & _); [done|done|exact He|done|].
  rewrite Hg. eexists _, cs', _. split; [done|].
  cbn [heap with_trace with_session snd]. rewrite Hh. by rewrite list_lookup_middle.
Qed.

Lemma add_then_rollback_persists_witness :
  ∃ e cs' s2,
    with_uow (UserRepository.get "user1")
      (exec (with_uow (UserRepository.add 1;; MainUnitOfWork.rollback)) s_demo) =
    (Ret (Some e), s2) ∧
    heap s2 !! e = Some (UserEntity "user1" "John" cs').
Proof.
  apply (add_then_rollback_persists s_demo
           (exec (with_uow (UserRepository.add 1;; MainUnitOfWork.rollback)) s_demo)
           1 "user1" "John" [0]); reflexivity.
Defined.

(** C2, as stated, fails: after [add] and [rollback] the next scope finds the
    user. *)
Lemma add_then_rollback_get_not_None :
  run (with_uow (UserRepository.add 1;; MainUnitOfWork.rollback)) s_demo = Ret tt ∧
  run (with_uow (UserRepository.get "user1"))
      (exec (with_uow (UserRepository.add 1;; MainUnitOfWork.rollback)) s_demo) ≠ Ret None.
Proof. split; [reflexivity|]. vm_compute. discriminate. Qed.

(** * Further properties of the mappers *)

Section mappers_more.

Implicit Types (s : State) (l : loc).

Lemma bind_read_only {A B} (m : M A) (k : A → M B) s :
  (m s).2 = s → (∀ a, (k a s).2 = s) → (bind m k s).2 = s.
Proof.
  unfold bind. destruct (m s) as [[a|e] s0]; simpl; intros ->; [|done]. by intros H.
Qed.

Lemma mapM_read_only {A B} (f : A → M B) (xs : list A) s :
  (∀ a, (f a s).2 = s) → (mapM f xs s).2 = s.
Proof.
  intros Hf. induction xs as [|x xs IH]; simpl; [done|].
  apply bind_read_only; [apply Hf|]. intros b.
  apply bind_read_only; [apply IH|]. done.
Qed.

Lemma get_id_read_only l s : (get_id l s).2 = s.
Proof. unfold get_id. by destruct (heap s !! l) as [[]|]. Qed.

Lemma get_name_read_only l s : (get_name l s).2 = s.
Proof. unfold get_name. by destruct (heap s !! l) as [[]|]. Qed.

Lemma get_brand_read_only l s : (get_brand l s).2 = s.
Proof. unfold get_brand. by destruct (heap s !! l) as [[]|]. Qed.

Lemma get_cars_read_only l s : (get_cars l s).2 = s.
Proof. unfold get_cars. by destruct (heap s !! l) as [[]|]. Qed.

Lemma get_user_read_only l s : (get_user l s).2 = s.
Proof. unfold get_user. by destruct (heap s !! l) as [[]|]. Qed.

Lemma deref_read_only {A} (o : option A) s : (deref o s).2 = s.
Proof. by destruct o. Qed.

Lemma user_entity_to_model_state l s : (user_entity_to_model l s).2 = s.
Proof.
  unfold user_entity_to_model.
  apply bind_read_only; [apply get_id_read_only|]. intros i.
  apply bind_read_only; [apply get_name_read_only|]. intros n.
  apply bind_read_only; [apply get_cars_read_only|]. intros cs.
  apply bind_read_only; [|done].
  apply mapM_read_only. intros c.
  apply bind_read_only; [apply get_id_read_only|]. intros ci.
  apply bind_read_only; [apply get_brand_read_only|]. done.
Qed.

Lemma car_entity_to_model_state l s : (car_entity_to_model l s).2 = s.
Proof.
  unfold car_entity_to_model.
  apply bind_read_only; [apply get_id_read_only|]. intros i.
  apply bind_read_only; [apply get_brand_read_only|]. intros b.
  apply bind_read_only; [apply get_user_read_only|]. intros u.
  apply bind_read_only; [apply deref_read_only|]. intros o.
  apply bind_read_only; [apply get_id_read_only|]. intros ui.
  apply bind_read_only; [apply get_name_read_only|]. done.
Qed.

(** X1. The two mappers from entities to records have no side effect:
    whatever object they are given and whether they return or raise, the
    heap, the session, the database, the identity map and the trace are the
    ones before the call. *)
Theorem entity_to_model_read_only s l :
  exec (user_entity_to_model l) s = s ∧ exec (car_entity_to_model l) s = s.
Proof.
  split; [apply user_entity_to_model_state|apply car_entity_to_model_state].
Qed.

(** What [car_entity_to_model] returns for a car whose owner is a user. *)
Lemma car_entity_to_model_spec s c i b u ui un (ucs : list loc) :
  heap s !! c = Some (CarEntity i b (Some u)) →
  heap s !! u = Some (UserEntity ui un ucs) →
  car_entity_to_model c s =
  (Ret {| cm_id := i; cm_brand := b;
          cm_user := Some {| um_id := ui; um_name := un;
                             um_cars := [ {| cf_id := i; cf_brand := b |} ] |} |}, s).
Proof.
  intros Hc Hu. unfold car_entity_to_model.
  erewrite bind_Ret; [|unfold get_id; by rewrite Hc].
  erewrite bind_Ret; [|unfold get_brand; by rewrite Hc].
  erewrite bind_Ret; [|unfold get_user; by rewrite Hc].
  erewrite bind_Ret; [|reflexivity].
  erewrite bind_Ret; [|unfold get_id; by rewrite Hu].
  erewrite bind_Ret; [|unfold get_name; by rewrite Hu]. done.
Qed.

(** X2. Round trip of a car: for a car entity whose owner is a user entity,
    [car_entity_to_model] followed by [car_model_to_entity] returns a new car
    entity with the same identifier and brand whose owner is a new user
    entity with the owner's identifier and name; that owner's collection is
    the rebuilt car alone, whatever cars the original owner had. The original
    car and owner are left as they were. *)
Theorem roundtrip_car s c i b u ui un (ucs : list loc) :
  heap s !! c = Some (CarEntity i b (Some u)) →
  heap s !! u = Some (UserEntity ui un ucs) →
  ∃ m c' u' s',
    car_entity_to_model c s = (Ret m, s) ∧
    car_model_to_entity m s = (Ret c', s') ∧
    heap s' !! c' = Some (CarEntity i b (Some u')) ∧
    heap s' !! u' = Some (UserEntity ui un [c']) ∧
    c' ≠ c ∧ u' ≠ u ∧
    heap s' !! c = Some (CarEntity i b (Some u)) ∧
    heap s' !! u = Some (UserEntity ui un ucs).
Proof.
  intros Hc Hu.
  pose proof (lookup_lt_Some _ _ _ Hc) as Hlc.
  pose proof (lookup_lt_Some _ _ _ Hu) as Hlu.
  eexists _, _, _, _. split; [by eapply car_entity_to_model_spec|].
  split; [by apply car_model_to_entity_spec|]. simpl.
  split; [by rewrite list_lookup_middle|].
  split. { rewrite lookup_app_r by lia.
           by replace (S (length (heap s)) - length (heap s)) with 1 by lia. }
  split; [lia|]. split; [lia|]. split; by apply lookup_old.
Qed.

(** A car whose owner has two cars. *)
Definition h_two : list obj :=
  [UserEntity "user1" "John" [1; 2];
   CarEntity "car1" "Audi" (Some 0);
   CarEntity "car2" "Fiat" (Some 0)].

Definition s_two : State := with_heap h_two init.

Lemma roundtrip_car_witness :
  ∃ m c' u' s',
    car_entity_to_model 2 s_two = (Ret m, s_two) ∧
    car_model_to_entity m s_two = (Ret c', s') ∧
    heap s' !! c' = Some (CarEntity "car2" "Fiat" (Some u')) ∧
    heap s' !! u' = Some (UserEntity "user1" "John" [c']) ∧
    c' ≠ 2 ∧ u' ≠ 0 ∧
    heap s' !! 2 = Some (CarEntity "car2" "Fiat" (Some 0)) ∧
    heap s' !! 0 = Some (UserEntity "user1" "John" [1; 2]).
Proof.
  apply (roundtrip_car s_two 2 "car2" "Fiat" 0 "user1" "John" [1; 2]); reflexivity.
Defined.

(** X3. [user_model_to_entity] never raises. It returns a user entity at an
    address that was free before, leaves every object that existed as it
    was, and the graph it builds is consistent in both directions: the
    user's collection has one car per car of the record, all at different
    addresses, and the owner of each of them is that user. *)
Theorem user_model_to_entity_consistent (um : UserModel) s :
  ∃ u cs s',
    user_model_to_entity um s = (Ret u, s') ∧
    heap s !! u = None ∧
    (∀ l o, heap s !! l = Some o → heap s' !! l = Some o) ∧
    heap s' !! u = Some (UserEntity (um_id um) (um_name um) cs) ∧
    length cs = length (um_cars um) ∧
    NoDup cs ∧
    ∀ c, c ∈ cs → ∃ ci cb, heap s' !! c = Some (CarEntity ci cb (Some u)).
Proof.
  eexists _, _, _. split; [apply user_model_to_entity_spec|]. simpl.
  split; [by apply lookup_ge_None_2|].
  split; [intros l o H; by apply lookup_old|].
  split; [by rewrite list_lookup_middle|].
  split; [by rewrite length_seq|].
  split; [apply NoDup_seq|].
  intros c Hc. apply elem_of_seq in Hc as [Hc1 Hc2].
  rewrite lookup_app_r by lia.
  destruct (c - length (heap s)) as [|j] eqn:Hj; [lia|]. simpl.
  rewrite list_lookup_fmap.
  destruct (um_cars um !! j) as [cf|] eqn:Hcf; [by eexists _, _|].
  apply lookup_ge_None_1 in Hcf. lia.
Qed.

End mappers_more.

(** * Further properties of the user repository *)

Section user_repository_more.

Implicit Types (s : State) (k n : string).

(** The entity [get] builds for a row that the identity map does not have,
    and the state it leaves. *)
Definition loaded_user (db : DB) (k n : string) (u : loc) : list obj :=
  UserEntity k n (seq (S u) (length (um_cars (load_user db k n)))) ::
  map (λ c, CarEntity (cf_id c) (cf_brand c) (Some u)) (um_cars (load_user db k n)).

Lemma get_load_state s k n :
  new (session s) = [] →
  inactive (session s) = false →
  assoc k (users_t (txn (session s))) = Some n →
  identity_map s !! k = None →
  UserRepository.get k s =
  (Ret (Some (length (heap s))),
   with_identity_map (<[k := length (heap s)]> (identity_map s))
     (with_heap (heap s ++ loaded_user (txn (session s)) k n (length (heap s)))
        (with_trace (trace s ++ [EvGetUser k]) s))).
Proof.
  intros Hn Ha Hk Hu. unfold UserRepository.get.
  erewrite bind_Ret; [|by apply query_get_user_spec]. rewrite Hk. simpl.
  erewrite bind_Ret; [|apply user_model_to_entity_spec]. simpl.
  erewrite bind_Ret; [|unfold get_id; simpl; by rewrite list_lookup_middle].
  simpl. by rewrite Hu.
Qed.

(** X4. Identity of a loaded user: when the session is usable with nothing
    staged, the table of users has a row for [k] and the identity map has no
    entry for it, [users.get(k)] returns a new
    entity with the row's identifier and name, and a second [users.get(k)]
    returns that same object, not another copy. *)
Theorem get_loads_once s k n :
  new (session s) = [] →
  inactive (session s) = false →
  assoc k (users_t (txn (session s))) = Some n →
  identity_map s !! k = None →
  ∃ e cs s1 s2,
    UserRepository.get k s = (Ret (Some e), s1) ∧
    heap s !! e = None ∧
    heap s1 !! e = Some (UserEntity k n cs) ∧
    UserRepository.get k s1 = (Ret (Some e), s2) ∧
    heap s2 !! e = Some (UserEntity k n cs).
Proof.
  intros Hn Ha Hk Hu.
  pose proof (get_load_state s k n Hn Ha Hk Hu) as Hg.
  set (s1 := with_identity_map (<[k := length (heap s)]> (identity_map s))
               (with_heap (heap s ++ loaded_user (txn (session s)) k n (length (heap s)))
                  (with_trace (trace s ++ [EvGetUser k]) s))) in Hg.
  destruct (get_hit s1 k n (length (heap s))) as (h & Hg1);
    [exact Hn|exact Ha|exact Hk|apply lookup_insert_eq|].
  eexists _, _, s1, _. split; [exact Hg|].
  split; [by apply lookup_ge_None_2|].
  split; [by apply list_lookup_middle|].
  split; [exact Hg1|].
  cbn [heap with_heap]. apply lookup_old. by apply list_lookup_middle.
Qed.

Lemma get_loads_once_witness :
  ∃ e cs s1 s2,
    UserRepository.get "user1" s_john = (Ret (Some e), s1) ∧
    heap s_john !! e = None ∧
    heap s1 !! e = Some (UserEntity "user1" "John" cs) ∧
    UserRepository.get "user1" s1 = (Ret (Some e), s2) ∧
    heap s2 !! e = Some (UserEntity "user1" "John" cs).
Proof. apply (get_loads_once s_john "user1" "John"); reflexivity. Defined.

(** One scope that only calls [users.get(k)] for a committed user. *)
Lemma scope_get_load s k n :
  assoc k (users_t (engine s)) = Some n →
  ∃ cs h s1,
    with_uow (UserRepository.get k) s = (Ret (Some (length (heap s))), s1) ∧
    heap s1 = heap s ++ UserEntity k n cs :: h ∧
    engine s1 = engine s.
Proof.
  intros Hk. rewrite with_uow_spec.
  rewrite (get_load_state _ k n); [|done|done|exact Hk|apply lookup_empty].
  eexists _, _, _. split; [reflexivity|]. split; reflexivity.
Qed.

(** X5. The identity map belongs to one scope: for a user in the committed
    database, [users.get(k)] in one [with] block and [users.get(k)] in the
    next return two different objects, both with the row's identifier and
    name. *)
Theorem get_in_two_scopes_differs s k n :
  assoc k (users_t (engine s)) = Some n →
  ∃ e1 e2 cs1 cs2 s1 s2,
    with_uow (UserRepository.get k) s = (Ret (Some e1), s1) ∧
    with_uow (UserRepository.get k) s1 = (Ret (Some e2), s2) ∧
    e1 ≠ e2 ∧
    heap s2 !! e1 = Some (UserEntity k n cs1) ∧
    heap s2 !! e2 = Some (UserEntity k n cs2).
Proof.
  intros Hk.
  destruct (scope_get_load s k n Hk) as (cs1 & h1 & s1 & H1 & Hh1 & He1).
  rewrite <- He1 in Hk.
  destruct (scope_get_load s1 k n Hk) as (cs2 & h2 & s2 & H2 & Hh2 & _).
  exists (length (heap s)), (length (heap s1)), cs1, cs2, s1, s2.
  split; [exact H1|]. split; [exact H2|].
  split; [rewrite Hh1, length_app; simpl; lia|].
  rewrite Hh2. split; [|by apply list_lookup_middle].
  apply lookup_old. rewrite Hh1. by apply list_lookup_middle.
Qed.

Lemma get_in_two_scopes_differs_witness :
  ∃ e1 e2 cs1 cs2 s1 s2,
    with_uow (UserRepository.get "user1") s_john = (Ret (Some e1), s1) ∧
    with_uow (UserRepository.get "user1") s1 = (Ret (Some e2), s2) ∧
    e1 ≠ e2 ∧
    heap s2 !! e1 = Some (UserEntity "user1" "John" cs1) ∧
    heap s2 !! e2 = Some (UserEntity "user1" "John" cs2).
Proof. apply (get_in_two_scopes_differs s_john "user1" "John"). reflexivity. Defined.

End user_repository_more.

Section user_list.

Implicit Types (s : State).

Lemma query_all_users_spec s :
  new (session s) = [] → inactive (session s) = false →
  query_all_users s =
  (Ret (map (λ r, load_user (txn (session s)) r.1 r.2) (users_t (txn (session s)))),
   with_trace (trace s ++ [EvAllUsers]) s).
Proof.
  intros Hn Ha. unfold query_all_users.
  erewrite bind_Ret; [|reflexivity].
  erewrite bind_Ret; [|by apply session_flush_nothing]. done.
Qed.

(** The comprehension of [list]: one new user per record, in order. *)
Lemma mapM_user_model_to_entity (ums : list UserModel) s :
  ∃ us h,
    mapM user_model_to_entity ums s = (Ret us, with_heap (heap s ++ h) s) ∧
    Forall2 (λ um u, length (heap s) ≤ u ∧
                     ∃ cs, (heap s ++ h) !! u =
                           Some (UserEntity (um_id um) (um_name um) cs)) ums us.
Proof.
  revert s. induction ums as [|um ums IH]; intros s.
  - exists [], []. split; [|constructor]. simpl. by rewrite app_nil_r, with_heap_id.
  - simpl. erewrite bind_Ret by apply user_model_to_entity_spec.
    match goal with |- context [bind _ _ ?t] => set (s1 := t) end.
    destruct (IH s1) as (us & h & Hm & HF).
    erewrite bind_Ret by exact Hm.
    eexists (_ :: us), (_ ++ h). split.
    { unfold ret, with_heap. simpl. by rewrite <- app_assoc. }
    constructor.
    + split; [done|]. eexists. simpl. by rewrite list_lookup_middle.
    + eapply Forall2_impl; [exact HF|]. simpl. intros m u [Hle (cs & Hcs)].
      rewrite length_app in Hle. split; [lia|]. exists cs.
      by rewrite <- app_assoc in Hcs.
Qed.

(** X6. [users.list()] does not go through the identity map. On a usable
    session with nothing staged it returns one entity per row of the table of users, in the order
    of the table, with the row's identifier and name; each of them is a new
    object at an address that was free before the call, so none is an
    instance handed to [add] or returned by [get]. The identity map, the
    session, the database and the objects that existed are unchanged. *)
Theorem users_list_fresh s :
  new (session s) = [] →
  inactive (session s) = false →
  ∃ us s',
    UserRepository.list s = (Ret us, s') ∧
    identity_map s' = identity_map s ∧
    engine s' = engine s ∧
    session s' = session s ∧
    (∀ l o, heap s !! l = Some o → heap s' !! l = Some o) ∧
    Forall2 (λ r u, heap s !! u = None ∧
                    ∃ cs, heap s' !! u = Some (UserEntity r.1 r.2 cs))
            (users_t (txn (session s))) us.
Proof.
  intros Hn Ha. unfold UserRepository.list.
  erewrite bind_Ret; [|by apply query_all_users_spec].
  destruct (mapM_user_model_to_entity
              (map (λ r, load_user (txn (session s)) r.1 r.2) (users_t (txn (session s))))
              (with_trace (trace s ++ [EvAllUsers]) s)) as (us & h & Hm & HF).
  rewrite Hm. eexists _, _. split; [done|]. simpl.
  split; [done|]. split; [done|]. split; [done|].
  split; [intros l o H; by apply lookup_old|].
  apply Forall2_fmap_l in HF. eapply Forall2_impl; [exact HF|].
  simpl. intros r u [Hle Hcs]. split; [by apply lookup_ge_None_2|done].
Qed.

Lemma users_list_fresh_witness :
  ∃ us s',
    UserRepository.list s_john = (Ret us, s') ∧
    identity_map s' = identity_map s_john ∧
    engine s' = engine s_john ∧
    session s' = session s_john ∧
    (∀ l o, heap s_john !! l = Some o → heap s' !! l = Some o) ∧
    Forall2 (λ r u, heap s_john !! u = None ∧
                    ∃ cs, heap s' !! u = Some (UserEntity r.1 r.2 cs))
            (users_t (txn (session s_john))) us.
Proof. apply (users_list_fresh s_john); reflexivity. Defined.

(** X7. [users.add] raises nothing but [AttributeError] (from the reads of
    the entity), [IntegrityError] (from the commit) and
    [PendingRollbackError], the last only when the transaction of the
    session was inactive before the call; whenever it raises, the committed
    database is the one before the call. *)
Theorem users_add_raise_keeps_database s (u : loc) (e : exn) :
  run (UserRepository.add u) s = Raise e →
  (e = AttributeError ∨ e = IntegrityError ∨
   (e = PendingRollbackError ∧ inactive (session s) = true)) ∧
  engine (exec (UserRepository.add u) s) = engine s.
Proof.
  unfold run, exec.
  destruct (heap s !! u) as [[k n cs|i b o]|] eqn:Hu.
  - destruct (add_cases s u k n cs Hu) as [->|(cars & ->)]; simpl.
    + intros [= <-]. eauto.
    + unfold add_result. destruct (inactive (session s)) eqn:Ha; simpl.
      { intros [= <-]. eauto. }
      destruct (flush _ _); simpl; [done|].
      intros [= <-]. eauto.
  - unfold UserRepository.add.
    erewrite bind_Ret; [|unfold get_id; by rewrite Hu].
    erewrite bind_Ret; [|reflexivity].
    erewrite bind_Raise.
    2: { unfold user_entity_to_model.
         erewrite bind_Ret; [|unfold get_id; simpl; by rewrite Hu].
         erewrite bind_Raise; [done|]. unfold get_name. simpl. by rewrite Hu. }
    simpl. intros [= <-]. eauto.
  - unfold UserRepository.add.
    erewrite bind_Raise; [|unfold get_id; by rewrite Hu].
    simpl. intros [= <-]. eauto.
Qed.

(** A user whose two cars have the same identifier: the second INSERT of a
    car fails, after the user row and the first car went in. *)
Definition s_twins : State :=
  with_heap [UserEntity "user1" "John" [1; 1]; CarEntity "car1" "Audi" None] init.

Lemma users_add_raise_keeps_database_witness :
  (IntegrityError = AttributeError ∨ IntegrityError = IntegrityError ∨
   (IntegrityError = PendingRollbackError ∧ inactive (session s_twins) = true)) ∧
  engine (exec (UserRepository.add 0) s_twins) = engine s_twins.
Proof. apply (users_add_raise_keeps_database s_twins 0 IntegrityError). reflexivity. Defined.

End user_list.

(** * What [add] stores is what [get] loads *)

Section store_round_trip.

Implicit Types (s : State) (db : DB) (m : UserModel) (k n : string).







End store_round_trip.

(** * The car repository *)

Section car_repository.

Implicit Types (s : State) (db : DB) (k i b ui un : string) (c u : loc).

(** The record [car_entity_to_model] returns for a car with an owner. *)
Definition car_record i b ui un : CarModel :=
  {| cm_id := i; cm_brand := b;
     cm_user := Some {| um_id := ui; um_name := un;
                        um_cars := [ {| cf_id := i; cf_brand := b |} ] |} |}.

(** How [CarRepository.add] ends once the mapper has returned record [m]. *)
Definition car_add_result s (m : CarModel) : outcome unit * State :=
  let s1 := with_trace (trace s ++ [EvAdd (MCar m); EvCommit]) s in
  if inactive (session s)
  then (Raise PendingRollbackError,
        with_session {| txn := txn (session s); new := new (session s) ++ [MCar m];
                        inactive := true |} s1)
  else match flush (txn (session s)) (new (session s) ++ [MCar m]) with
       | Some db =>
           (Ret tt, with_engine db
                      (with_session {| txn := db; new := []; inactive := false |} s1))
       | None => (Raise IntegrityError, with_session (failed s) s1)
       end.

Lemma cars_add_after_mapper s c i b u ui un (ucs : list loc) :
  heap s !! c = Some (CarEntity i b (Some u)) →
  heap s !! u = Some (UserEntity ui un ucs) →
  CarRepository.add c s = car_add_result s (car_record i b ui un).
Proof.
  intros Hc Hu. unfold CarRepository.add.
  erewrite bind_Ret by (by eapply car_entity_to_model_spec).
  unfold car_add_result, car_record, session_add, session_commit, session_flush, bind, log.
  simpl. rewrite <- app_assoc. simpl.
  destruct (inactive (session s)); [reflexivity|].
  destruct (flush _ _); reflexivity.
Qed.



(** X10. [cars.add] inserts the owner anew: for a car entity whose owner is
    a user entity, when the session is usable with nothing staged and the
    table of users already has a row with the owner's identifier, [cars.add]
    raises [IntegrityError] and the committed database is unchanged,
    whether or not the car's own identifier is new; the session is rolled
    back, holds nothing staged and waits for [rollback()]. *)
Theorem cars_add_existing_owner s c i b u ui un n0 (ucs : list loc) :
  heap s !! c = Some (CarEntity i b (Some u)) →
  heap s !! u = Some (UserEntity ui un ucs) →
  new (session s) = [] →
  inactive (session s) = false →
  assoc ui (users_t (txn (session s))) = Some n0 →
  ∃ s',
    CarRepository.add c s = (Raise IntegrityError, s') ∧
    engine s' = engine s ∧
    session s' = failed s.
Proof.
  intros Hc Hu Hn Ha Hui.
  rewrite (cars_add_after_mapper s c i b u ui un ucs Hc Hu).
  unfold car_add_result. rewrite Hn, Ha. simpl.
  erewrite flush_user_dup by exact Hui. by eexists.
Qed.

(** The owner "user1" is committed; the entity "car2" of that owner is not. *)
Definition s_owner_stored : State :=
  {| heap := h_two; engine := db_john;
     session := {| txn := db_john; new := []; inactive := false |};
     identity_map := ∅; trace := [] |}.

Lemma cars_add_existing_owner_witness :
  ∃ s',
    CarRepository.add 2 s_owner_stored = (Raise IntegrityError, s') ∧
    engine s' = engine s_owner_stored ∧
    session s' = failed s_owner_stored.
Proof.
  apply (cars_add_existing_owner s_owner_stored 2 "car2" "Fiat" 0 "user1" "John" "John" [1; 2]);
    reflexivity.
Defined.

Lemma flush_staged_car_Some db (ms : list model) i b ui un db' :
  flush db (ms ++ [MCar (car_record i b ui un)]) = Some db' →
  assoc ui (users_t db') = Some un.
Proof.
  rewrite flush_app. destruct (flush db ms) as [db1|]; [|done]. simpl.
  destruct (flush_user db1 _) as [db2|] eqn:H; [|done].
  intros [= <-]. by apply flush_user_Some in H.
Qed.

(** X11. Two cars of one owner cannot both go through [cars.add]: after
    [cars.add] of a car has returned, [cars.add] of another car entity with
    the same owner raises [IntegrityError], and the second car is not
    stored. *)
Theorem cars_add_second_car_of_owner s s1 c1 c2 i1 b1 i2 b2 u ui un (ucs : list loc) :
  heap s !! c1 = Some (CarEntity i1 b1 (Some u)) →
  heap s !! c2 = Some (CarEntity i2 b2 (Some u)) →
  heap s !! u = Some (UserEntity ui un ucs) →
  CarRepository.add c1 s = (Ret tt, s1) →
  ∃ s2,
    CarRepository.add c2 s1 = (Raise IntegrityError, s2) ∧
    engine s2 = engine s1.
Proof.
  intros Hc1 Hc2 Hu Hadd.
  rewrite (cars_add_after_mapper s c1 i1 b1 u ui un ucs Hc1 Hu) in Hadd.
  unfold car_add_result in Hadd.
  destruct (inactive (session s)); [done|].
  destruct (flush _ _) as [db|] eqn:Hf; [|done].
  apply flush_staged_car_Some in Hf.
  injection Hadd as <-.
  erewrite cars_add_after_mapper; [|exact Hc2|exact Hu].
  unfold car_add_result. simpl.
  erewrite flush_user_dup by exact Hf. by eexists.
Qed.

Lemma cars_add_second_car_of_owner_witness :
  ∃ s2,
    CarRepository.add 1 (exec (CarRepository.add 2) s_two) = (Raise IntegrityError, s2) ∧
    engine s2 = engine (exec (CarRepository.add 2) s_two).
Proof.
  apply (cars_add_second_car_of_owner s_two (exec (CarRepository.add 2) s_two)
           2 1 "car2" "Fiat" "car1" "Audi" 0 "user1" "John" [1; 2]); reflexivity.
Defined.

End car_repository.

Section car_repository_reads.

Implicit Types (s : State) (db : DB) (k b uid un : string).

Lemma cars_get_state s k b uid un :
  new (session s) = [] →
  inactive (session s) = false →
  assoc k (cars_t (txn (session s))) = Some (b, Some uid) →
  assoc uid (users_t (txn (session s))) = Some un →
  CarRepository.get k s =
  (Ret (Some (length (heap s))),
   with_heap (heap s ++ [CarEntity k b (Some (S (length (heap s))));
                         UserEntity uid un [length (heap s)]])
     (with_trace (trace s ++ [EvGetCar k]) s)).
Proof.
  intros Hn Ha Hk Hu. unfold CarRepository.get.
  erewrite bind_Ret; [|by apply query_get_car_spec]. rewrite Hk. simpl.
  erewrite bind_Ret.
  2: { apply car_model_to_entity_spec with (owner := load_user (txn (session s)) uid un).
       simpl. by rewrite Hu. }
  done.
Qed.

(** X12. [cars.get] does not go through an identity map: on a usable
    session with nothing staged, for a car row whose owner row exists, two
    calls of [cars.get(k)] return two different
    car objects, each with the row's identifier and brand and each with an
    owner object of its own that has the owner row's identifier and name and
    lists that one car. The identity map of the user repository is
    unchanged. *)
Theorem cars_get_fresh_each_time s k b uid un :
  new (session s) = [] →
  inactive (session s) = false →
  assoc k (cars_t (txn (session s))) = Some (b, Some uid) →
  assoc uid (users_t (txn (session s))) = Some un →
  ∃ c1 u1 c2 u2 s1 s2,
    CarRepository.get k s = (Ret (Some c1), s1) ∧
    CarRepository.get k s1 = (Ret (Some c2), s2) ∧
    c1 ≠ c2 ∧ u1 ≠ u2 ∧
    heap s2 !! c1 = Some (CarEntity k b (Some u1)) ∧
    heap s2 !! u1 = Some (UserEntity uid un [c1]) ∧
    heap s2 !! c2 = Some (CarEntity k b (Some u2)) ∧
    heap s2 !! u2 = Some (UserEntity uid un [c2]) ∧
    identity_map s2 = identity_map s.
Proof.
  intros Hn Ha Hk Hu.
  pose proof (cars_get_state s k b uid un Hn Ha Hk Hu) as H1.
  match type of H1 with _ = (_, ?t) => set (s1 := t) in H1 end.
  pose proof (cars_get_state s1 k b uid un Hn Ha Hk Hu) as H2.
  eexists _, (S (length (heap s))), _, (S (length (heap s1))), s1, _.
  split; [exact H1|]. split; [exact H2|].
  assert (length (heap s1) = S (S (length (heap s)))) as Hl.
  { unfold s1. simpl. rewrite length_app. simpl. lia. }
  split; [lia|]. split; [lia|].
  cbn [heap with_heap with_trace identity_map].
  split; [apply lookup_old; unfold s1; simpl; by rewrite list_lookup_middle|].
  split. { apply lookup_old. unfold s1. simpl. rewrite lookup_app_r by lia.
           by replace (S (length (heap s)) - length (heap s)) with 1 by lia. }
  split; [by rewrite list_lookup_middle|].
  split; [|done]. rewrite lookup_app_r by lia.
  by replace (S (length (heap s1)) - length (heap s1)) with 1 by lia.
Qed.

(** A committed user with two cars. *)
Definition db_two : DB :=
  {| users_t := [("user1", "John")];
     cars_t := [("car1", ("Audi", Some "user1")); ("car2", ("Fiat", Some "user1"))] |}.

Definition s_db_two : State :=
  {| heap := []; engine := db_two;
     session := {| txn := db_two; new := []; inactive := false |};
     identity_map := ∅; trace := [] |}.

Lemma cars_get_fresh_each_time_witness :
  ∃ c1 u1 c2 u2 s1 s2,
    CarRepository.get "car2" s_db_two = (Ret (Some c1), s1) ∧
    CarRepository.get "car2" s1 = (Ret (Some c2), s2) ∧
    c1 ≠ c2 ∧ u1 ≠ u2 ∧
    heap s2 !! c1 = Some (CarEntity "car2" "Fiat" (Some u1)) ∧
    heap s2 !! u1 = Some (UserEntity "user1" "John" [c1]) ∧
    heap s2 !! c2 = Some (CarEntity "car2" "Fiat" (Some u2)) ∧
    heap s2 !! u2 = Some (UserEntity "user1" "John" [c2]) ∧
    identity_map s2 = identity_map s_db_two.
Proof.
  apply (cars_get_fresh_each_time s_db_two "car2" "Fiat" "user1" "John"); reflexivity.
Defined.

(** The comprehension of [cars.list] over records that all have an owner. *)
Lemma mapM_car_model_to_entity (cms : list CarModel) s :
  Forall (λ cm, is_Some (cm_user cm)) cms →
  ∃ cs h,
    mapM car_model_to_entity cms s = (Ret cs, with_heap (heap s ++ h) s) ∧
    Forall2 (λ cm c, ∃ u o,
               cm_user cm = Some o ∧
               (heap s ++ h) !! c = Some (CarEntity (cm_id cm) (cm_brand cm) (Some u)) ∧
               (heap s ++ h) !! u = Some (UserEntity (um_id o) (um_name o) [c])) cms cs.
Proof.
  intros Hall. revert s. induction Hall as [|cm cms [o Ho] _ IH]; intros s.
  - exists [], []. split; [|constructor]. simpl. by rewrite app_nil_r, with_heap_id.
  - simpl. erewrite bind_Ret by (by apply car_model_to_entity_spec).
    match goal with |- context [bind _ _ ?t] => set (s1 := t) end.
    destruct (IH s1) as (cs & h & Hm & HF).
    erewrite bind_Ret by exact Hm.
    eexists (_ :: cs), (_ ++ h). split.
    { unfold ret, with_heap. simpl. by rewrite <- app_assoc. }
    constructor.
    + exists (S (length (heap s))), o. split; [done|]. simpl. split.
      * by rewrite list_lookup_middle.
      * rewrite lookup_app_r by lia.
        by replace (S (length (heap s)) - length (heap s)) with 1 by lia.
    + eapply Forall2_impl; [exact HF|]. simpl. intros m c (u & o' & Ho' & Hc & Hu).
      exists u, o'. rewrite <- app_assoc in Hc, Hu. done.
Qed.

(** X13. [cars.list()], when the session is usable with nothing staged and
    every car row names an existing user row, returns one car entity per row of the table of cars,
    in the order of the table, with the row's identifier and brand. Each
    car has an owner object of its own, with the owner row's identifier and
    name, whose collection is that car alone: two cars of one owner do not
    share the owner object. The identity map is unchanged. *)
Theorem cars_list_own_owners s :
  new (session s) = [] →
  inactive (session s) = false →
  Forall (λ r, ∃ uid, r.2.2 = Some uid ∧
               is_Some (assoc uid (users_t (txn (session s)))))
         (cars_t (txn (session s))) →
  ∃ cs s',
    CarRepository.list s = (Ret cs, s') ∧
    identity_map s' = identity_map s ∧
    Forall2 (λ r c, ∃ u uid un,
               r.2.2 = Some uid ∧
               assoc uid (users_t (txn (session s))) = Some un ∧
               heap s' !! c = Some (CarEntity r.1 r.2.1 (Some u)) ∧
               heap s' !! u = Some (UserEntity uid un [c]))
            (cars_t (txn (session s))) cs.
Proof.
  intros Hn Ha Hall. unfold CarRepository.list.
  erewrite bind_Ret; [|by apply query_all_cars_spec].
  destruct (mapM_car_model_to_entity
              (map (load_car (txn (session s))) (cars_t (txn (session s))))
              (with_trace (trace s ++ [EvAllCars]) s)) as (cs & h & Hm & HF).
  { apply Forall_fmap. eapply Forall_impl; [exact Hall|].
    intros r (uid & Hr & un & Hun). simpl. rewrite Hr, Hun. by eexists. }
  rewrite Hm. eexists _, _. split; [done|]. split; [done|].
  apply Forall2_fmap_l in HF.
  apply Forall2_same_length_lookup_2; [by eapply Forall2_length|].
  intros j r c Hr Hc.
  destruct (Forall2_lookup_lr _ _ _ _ _ _ HF Hr Hc) as (u & o & Ho & Hhc & Hhu).
  rewrite Forall_lookup in Hall. destruct (Hall _ _ Hr) as (uid & Huid & un & Hun).
  simpl in Ho. rewrite Huid, Hun in Ho. simpl in Ho. injection Ho as <-.
  exists u, uid, un. done.
Qed.

Lemma cars_list_own_owners_witness :
  ∃ cs s',
    CarRepository.list s_db_two = (Ret cs, s') ∧
    identity_map s' = identity_map s_db_two ∧
    Forall2 (λ r c, ∃ u uid un,
               r.2.2 = Some uid ∧
               assoc uid (users_t (txn (session s_db_two))) = Some un ∧
               heap s' !! c = Some (CarEntity r.1 r.2.1 (Some u)) ∧
               heap s' !! u = Some (UserEntity uid un [c]))
            (cars_t (txn (session s_db_two))) cs.
Proof.
  apply (cars_list_own_owners s_db_two); [reflexivity|reflexivity|].
  repeat constructor; exists "user1"; (split; [reflexivity|by exists "John"]).
Defined.

End car_repository_reads.

(** * When [users.add] returns, and what it writes *)

Section users_add_effect.

Implicit Types (s : State) (db : DB) (k n : string) (u : loc).

Lemma assoc_app {V} k (l1 l2 : list (string * V)) :
  assoc k (l1 ++ l2) = match assoc k l1 with
                       | Some v => Some v
                       | None => assoc k l2
                       end.
Proof.
  induction l1 as [|[k' v'] l1 IH]; simpl; [done|]. by case_decide.
Qed.

(** A list of car rows goes in exactly when its identifiers are new to the
    table and different from one another. *)
Lemma insert_cars_Some_iff db (rs : list (string * (string * option string))) :
  is_Some (insert_cars db rs) ↔
  NoDup rs.*1 ∧ Forall (λ r, assoc r.1 (cars_t db) = None) rs.
Proof.
  revert db. induction rs as [|[rk rv] rs IH]; intros db; simpl.
  - split; [intros _; split; constructor|by eexists].
  - unfold insert_car. simpl. destruct (assoc rk (cars_t db)) as [v|] eqn:Hr.
    + split; [by intros [? ?]|]. intros [_ HF]. apply Forall_cons in HF as [HF _].
      simpl in HF. congruence.
    + rewrite IH. simpl. rewrite NoDup_cons, Forall_cons. simpl. split.
      * intros [Hnd HF]. split; [split; [|done]|split; [done|]].
        -- intros Hin. apply list_elem_of_fmap in Hin as (r' & Heq & Hin).
           rewrite Forall_forall in HF. specialize (HF _ Hin).
           rewrite assoc_app in HF. destruct (assoc r'.1 (cars_t db)); [done|].
           simpl in HF. by rewrite decide_True in HF.
        -- eapply Forall_impl; [exact HF|]. intros r' H. simpl in H.
           rewrite assoc_app in H.
           by destruct (assoc r'.1 (cars_t db)).
      * intros [[Hnin Hnd] [_ HF]]. split; [done|].
        rewrite Forall_forall in HF. apply Forall_forall. intros r' Hin.
        rewrite assoc_app, (HF _ Hin). simpl. rewrite decide_False; [done|].
        intros Heq. apply Hnin. apply list_elem_of_fmap. by exists r'.
Qed.

(** The identifier of a car entity. *)
Definition car_id (h : list obj) (c : loc) : string := cf_id (car_fields h c).

(** The rows [users.add] writes for the cars of a user. *)
Definition rows_of_cars (h : list obj) k (cs : list loc) :
    list (string * (string * option string)) :=
  map (λ c, (cf_id (car_fields h c), (cf_brand (car_fields h c), Some k))) cs.

Lemma add_clean_result s u k n (cs : list loc) :
  heap s !! u = Some (UserEntity k n cs) →
  Forall (is_car (heap s)) cs →
  session s = clean s →
  UserRepository.add u s =
  let s1 := with_trace (trace s ++ [EvAdd (MUser
              {| um_id := k; um_name := n; um_cars := map (car_fields (heap s)) cs |});
              EvCommit])
              (with_identity_map (<[k := u]> (identity_map s)) s) in
  match assoc k (users_t (engine s)) with
  | Some _ => (Raise IntegrityError, with_session (failed s) s1)
  | None =>
      match insert_cars {| users_t := users_t (engine s) ++ [(k, n)];
                           cars_t := cars_t (engine s) |} (rows_of_cars (heap s) k cs) with
      | Some db =>
          (Ret tt, with_engine db
                     (with_session {| txn := db; new := []; inactive := false |} s1))
      | None => (Raise IntegrityError, with_session (failed s) s1)
      end
  end.
Proof.
  intros Hu Hcs Hs. rewrite (add_valid s u k n cs Hu Hcs).
  unfold add_result. rewrite Hs. simpl.
  unfold flush_user, insert_user, car_rows, rows_of_cars. simpl.
  destruct (assoc k (users_t (engine s))); [done|].
  rewrite map_map. simpl. by destruct (insert_cars _ _).
Qed.

(** X14. [users.add] returns exactly when the store can take the rows: for a
    user entity whose cars are car entities, with nothing staged,
    [users.add] returns if and only if the table of users has no row with
    the user's identifier, the identifiers of the user's cars are different
    from one another, and none of them is in the table of cars. *)
Theorem users_add_returns_iff s u k n (cs : list loc) :
  heap s !! u = Some (UserEntity k n cs) →
  Forall (is_car (heap s)) cs →
  session s = clean s →
  run (UserRepository.add u) s = Ret tt ↔
  assoc k (users_t (engine s)) = None ∧
  NoDup (map (car_id (heap s)) cs) ∧
  Forall (λ c, assoc (car_id (heap s) c) (cars_t (engine s)) = None) cs.
Proof.
  intros Hu Hcs Hs. unfold run. rewrite (add_clean_result s u k n cs Hu Hcs Hs).
  cbn zeta.
  pose proof (insert_cars_Some_iff
                {| users_t := users_t (engine s) ++ [(k, n)]; cars_t := cars_t (engine s) |}
                (rows_of_cars (heap s) k cs)) as Hiff.
  unfold rows_of_cars in Hiff at 2 3. rewrite Forall_fmap, <- list_fmap_compose in Hiff.
  simpl in Hiff.
  destruct (assoc k (users_t (engine s))) as [v|]; [split; [done|by intros [? _]]|].
  destruct (insert_cars _ _) as [db|]; simpl.
  - split; [intros _|done]. split; [done|]. apply Hiff. by eexists.
  - split; [done|]. intros (_ & Hnd & HF).
    destruct (proj2 Hiff (conj Hnd HF)) as [? ?]. done.
Qed.

Lemma users_add_returns_iff_witness :
  run (UserRepository.add 1) s_demo = Ret tt ↔
  assoc "user1" (users_t (engine s_demo)) = None ∧
  NoDup (map (car_id (heap s_demo)) [0]) ∧
  Forall (λ c, assoc (car_id (heap s_demo) c) (cars_t (engine s_demo)) = None) [0].
Proof.
  apply (users_add_returns_iff s_demo 1 "user1" "John" [0]).
  - reflexivity.
  - repeat constructor. by exists "car1", "Audi", None.
  - reflexivity.
Defined.



End users_add_effect.

(** * [add] and the entities *)

(** X16. Neither [users.add] nor [cars.add] writes to an entity: whatever
    they are given and however they end, the heap after the call is the heap
    before it. In particular [users.add] does not set the [user] of the
    user's cars, and [cars.add] does not put the car into its owner's
    collection. *)
Theorem add_leaves_heap (s : State) (l : loc) :
  heap (exec (UserRepository.add l) s) = heap s ∧
  heap (exec (CarRepository.add l) s) = heap s.
Proof.
  unfold exec. split.
  - unfold UserRepository.add.
    destruct (get_id l s) as [[k|e] s0] eqn:Hk;
      pose proof (get_id_read_only l s) as H0; rewrite Hk in H0; simpl in H0; subst s0.
    2: { by erewrite bind_Raise by exact Hk. }
    erewrite bind_Ret by exact Hk. erewrite bind_Ret by reflexivity.
    match goal with |- context [bind _ _ ?t] => set (s1 := t) end.
    destruct (user_entity_to_model l s1) as [[m|e] s2] eqn:Hm;
      pose proof (user_entity_to_model_state l s1) as H1; rewrite Hm in H1;
      simpl in H1; subst s2.
    2: { by erewrite bind_Raise by exact Hm. }
    erewrite bind_Ret by exact Hm.
    unfold session_add, session_commit, session_flush, bind, log. simpl.
    destruct (inactive _); [done|]. by destruct (flush _ _).
  - unfold CarRepository.add.
    destruct (car_entity_to_model l s) as [[m|e] s0] eqn:Hm;
      pose proof (car_entity_to_model_state l s) as H0; rewrite Hm in H0;
      simpl in H0; subst s0.
    2: { by erewrite bind_Raise by exact Hm. }
    erewrite bind_Ret by exact Hm.
    unfold session_add, session_commit, session_flush, bind, log. simpl.
    destruct (inactive _); [done|]. by destruct (flush _ _).
Qed.

(** [users.add] of an object that is not a user entity raises. *)
Lemma add_not_user_raises (s : State) (u : loc) :
  (∀ k n cs, heap s !! u ≠ Some (UserEntity k n cs)) →
  ∃ s', UserRepository.add u s = (Raise AttributeError, s').
Proof.
  intros Hnu. unfold UserRepository.add.
  destruct (heap s !! u) as [[k n cs|i b o]|] eqn:Hu.
  - by destruct (Hnu k n cs).
  - erewrite bind_Ret; [|unfold get_id; by rewrite Hu].
    erewrite bind_Ret; [|reflexivity].
    erewrite bind_Raise; [by eexists|].
    unfold user_entity_to_model.
    erewrite bind_Ret; [|unfold get_id; simpl; by rewrite Hu].
    erewrite bind_Raise; [done|]. unfold get_name. simpl. by rewrite Hu.
  - erewrite bind_Raise; [by eexists|]. unfold get_id. by rewrite Hu.
Qed.

(** X17. [users.add] has committed when it returns: a [commit()] of the
    unit of work right after it changes neither the committed database nor
    the session; it only adds its call to the trace. When [add] raises,
    the [commit()] is not reached. *)
Theorem commit_after_add_changes_nothing (s : State) (u : loc) :
  engine (exec (UserRepository.add u;; MainUnitOfWork.commit) s) =
    engine (exec (UserRepository.add u) s) ∧
  session (exec (UserRepository.add u;; MainUnitOfWork.commit) s) =
    session (exec (UserRepository.add u) s) ∧
  identity_map (exec (UserRepository.add u;; MainUnitOfWork.commit) s) =
    identity_map (exec (UserRepository.add u) s) ∧
  run (UserRepository.add u;; MainUnitOfWork.commit) s = run (UserRepository.add u) s.
Proof.
  unfold exec, run.
  destruct (heap s !! u) as [[k n cs|i b o]|] eqn:Hu.
  - destruct (add_cases s u k n cs Hu) as [H|(cars & H)].
    + erewrite bind_Raise by exact H. by rewrite H.
    + unfold add_result in H. destruct (inactive (session s)).
      { erewrite bind_Raise by exact H. by rewrite H. }
      destruct (flush _ _) as [db|].
      * erewrite bind_Ret by exact H. rewrite H.
        unfold MainUnitOfWork.commit, session_commit, session_flush, bind, log. by simpl.
      * erewrite bind_Raise by exact H. by rewrite H.
  - destruct (add_not_user_raises s u) as (s' & H); [intros ? ? ?; by rewrite Hu|].
    erewrite bind_Raise by exact H. by rewrite H.
  - destruct (add_not_user_raises s u) as (s' & H); [intros ? ? ?; by rewrite Hu|].
    erewrite bind_Raise by exact H. by rewrite H.
Qed.
